(** * The [jacobi] executable: a shallow embedding of [prog2/main.cpp]

    The driver is an SPMD program: every MPI process runs the same [main],
    parameterised by the communicator size [p] and its own [rank].  The
    embedding follows the source statement by statement in a small monad that
    threads the local variables of [main], records what the process does
    (library calls, output, container subscripts) in a trace and stops at
    [exit], at an uncaught exception or in a collective that cannot complete.

    The collaborators that live in headers outside the tree ([utils.h],
    [io.h], [jacobi.h], [mpi_jacobi.h]) are taken as parameters, bundled in
    the record [Extern]. *)

From Stdlib Require Import ZArith List String Ascii Bool Lia.
From Stdlib Require Import Floats.PrimFloat.
From Stdlib Require Floats.FloatOps Numbers.Cyclic.Int63.Uint63.
Import ListNotations.
Open Scope Z_scope.

(** ** Machine integers *)

Module CInt.

(** Conversion of a mathematical value to a 32-bit [int] (two's complement
    wrap-around). *)
Definition wrap (z : Z) : Z := (z + 2 ^ 31) mod 2 ^ 32 - 2 ^ 31.

(** Conversion to the 64-bit unsigned [size_t]. *)
Definition to_size_t (z : Z) : Z := z mod 2 ^ 64.

(** Multiplication of two [int]s. *)
Definition mul (a b : Z) : Z := wrap (a * b).

(** Multiplication of two [size_t]s. *)
Definition size_mul (a b : Z) : Z := (a * b) mod 2 ^ 64.

Definition LONG_MAX : Z := 2 ^ 63 - 1.
Definition LONG_MIN : Z := - 2 ^ 63.

Definition in_int (z : Z) : Prop := - 2 ^ 31 <= z < 2 ^ 31.

End CInt.

(** ** [atoi]

    [atoi(s)] is [(int) strtol(s, NULL, 10)]: leading white space, an optional
    sign, then the longest run of decimal digits; no digits give 0.  [strtol]
    saturates at the bounds of [long]; the conversion to [int] wraps. *)

Definition isspace (c : ascii) : bool :=
  let k := Z.of_nat (nat_of_ascii c) in
  (k =? 32) || ((9 <=? k) && (k <=? 13)).

Definition digit_of (c : ascii) : option Z :=
  let k := Z.of_nat (nat_of_ascii c) in
  if (48 <=? k) && (k <=? 57) then Some (k - 48) else None.

Fixpoint skip_space (s : string) : string :=
  match s with
  | String c s' => if isspace c then skip_space s' else s
  | EmptyString => s
  end.

Fixpoint digits (acc : Z) (s : string) : Z :=
  match s with
  | String c s' =>
      match digit_of c with
      | Some d => digits (10 * acc + d) s'
      | None => acc
      end
  | EmptyString => acc
  end.

Definition strip_sign (s : string) : bool * string :=
  match s with
  | String c r =>
      if Ascii.eqb c "-" then (true, r)
      else if Ascii.eqb c "+" then (false, r)
      else (false, s)
  | EmptyString => (false, s)
  end.

Definition strtol (s : string) : Z :=
  let '(neg, s2) := strip_sign (skip_space s) in
  let v := digits 0 s2 in
  let v := if neg then - v else v in
  Z.max CInt.LONG_MIN (Z.min CInt.LONG_MAX v).

Definition atoi (s : string) : Z := CInt.wrap (strtol s).

(** ** The integer square root taken by the driver

    [int q = (int)sqrt(p)]: [p] is converted to [double] exactly, the IEEE
    square root is correctly rounded and the conversion back truncates.  For
    a process count [0 <= p < 2^31] the truncated root is the integer square
    root, which is what [Z.sqrt] computes; [double_sqrt_at_squares] below
    compares the two at every perfect square and at its predecessor. *)

Definition int_sqrt (p : Z) : Z := Z.sqrt p.

(** The computation as the machine does it, on IEEE doubles, kept beside
    [int_sqrt] to compare the two on concrete process counts. *)
Module DoubleSqrt.

(** [(int) f] for a finite [f >= 0]: [f] is [mantissa * 2^exponent] with a
    53-bit integer mantissa; the conversion drops the fractional bits. *)
Definition truncate (f : float) : Z :=
  let (m, e) := PrimFloat.frshiftexp f in
  let mantissa := Uint63.to_Z (PrimFloat.normfr_mantissa m) in
  let exponent := Uint63.to_Z e - FloatOps.shift - FloatOps.prec in
  if exponent <? 0 then Z.shiftr mantissa (- exponent)
  else Z.shiftl mantissa exponent.

(** [(int)sqrt(p)] for an [int p >= 0]. *)
Definition int_sqrt (p : Z) : Z :=
  truncate (PrimFloat.sqrt (PrimFloat.of_uint63 (Uint63.of_Z p))).

(** The two square roots agree at [q * q] and just below it. *)
Definition agree_around (q : Z) : bool :=
  (int_sqrt (q * q) =? Z.sqrt (q * q))
  && (int_sqrt (q * q - 1) =? Z.sqrt (q * q - 1)).

(** [f 1 && f 2 && ... && f n]. *)
Definition all_upto (n : positive) (f : Z -> bool) : bool :=
  snd (Pos.iter (fun st : Z * bool => (fst st + 1, snd st && f (fst st)))
                (1, true) n).

End DoubleSqrt.

(** ** Communicators *)

Inductive Comm : Type :=
| MPI_COMM_WORLD
| Cart (comm_old : Comm) (ndims : Z) (dims periods : list Z) (reorder : Z).

(** Number of processes of a Cartesian grid: the product of its dimensions. *)
Definition grid_size (c : Comm) : option Z :=
  match c with
  | MPI_COMM_WORLD => None
  | Cart _ _ dims _ _ => Some (fold_right Z.mul 1 dims)
  end.

(** ** Local variables of [main] *)

Module Locals.

(** [n] is declared without an initialiser: [None] is the indeterminate
    value it has until something is stored in it. *)
Record t : Type := mk {
  A : list float;
  b : list float;
  x : list float;
  write_output : bool;
  outfile_name : string;
  n : option Z
}.

(** The variables as declared at the top of [main]: three empty vectors,
    [write_output = false], an empty file name, [n] not yet written. *)
Definition init : t :=
  mk [] [] [] false EmptyString None.

Definition set_A (v : list float) (s : t) : t :=
  mk v (b s) (x s) (write_output s) (outfile_name s) (n s).
Definition set_b (v : list float) (s : t) : t :=
  mk (A s) v (x s) (write_output s) (outfile_name s) (n s).
Definition set_x (v : list float) (s : t) : t :=
  mk (A s) (b s) v (write_output s) (outfile_name s) (n s).
Definition set_write_output (v : bool) (s : t) : t :=
  mk (A s) (b s) (x s) v (outfile_name s) (n s).
Definition set_outfile_name (v : string) (s : t) : t :=
  mk (A s) (b s) (x s) (write_output s) v (n s).
Definition set_n (v : Z) (s : t) : t :=
  mk (A s) (b s) (x s) (write_output s) (outfile_name s) (Some v).

End Locals.

(** ** What a process does *)

(** The three vectors of [main], to name the one that is subscripted. *)
Inductive Buffer : Type := BufA | BufB | BufX.

(** The steps of [main] that the trace records, in the order of the source.
    A call carries the values of its arguments; the pointer [&v[0]] handed to
    a solver is recorded as the contents of [v]. *)
Inductive Event : Type :=
| EvMPI_Init                                    (* line 70 *)
| EvPrintUsage                                  (* print_usage(), lines 56-65 *)
| EvDiagDomRand (size : Z) (difficulty : float) (* line 118 *)
| EvRandn (size : Z)                            (* line 119 *)
| EvReadBinaryFile (path : string)              (* lines 135, 136 *)
| EvClock                                       (* current_utc_time, lines 153, 203 *)
| EvBcast (root : Z)                            (* entering MPI_Bcast, line 160 *)
| EvSquareCheck (p q : Z)                       (* the test p != q*q, line 164 *)
| EvCartCreate (grid : Comm)                    (* line 173 *)
| EvSubscript (v : Buffer) (index : Z) (size : nat)   (* v[index], v of that size *)
| EvMpiJacobi (size : Z) (A b x : list float) (comm : Comm)   (* line 183 *)
| EvWarnSequential                              (* line 187 *)
| EvJacobi (size : Z) (A b x : list float)      (* line 196 *)
| EvPrintTime                                   (* line 211 *)
| EvWriteBinaryFile (path : string) (data : list float)   (* line 216 *)
| EvMPI_Finalize.                               (* line 222 *)

(** A trace entry pairs an event with the local variables as they are when the
    event starts. *)
Definition Trace : Type := list (Event * Locals.t).

(** How a process stops other than by returning from [main]. *)
Inductive Stop : Type :=
| Exited (status : Z)          (* exit(status) *)
| Thrown (what : string)       (* an uncaught exception *)
| Hung                         (* blocked in a collective the root never enters *)
| Undefined (why : string).    (* a read of an indeterminate value *)

Definition EXIT_FAILURE : Z := 1.

Definition msg_dimensions : string :=
  "The input dimensions are not matching"%string.
Definition msg_perfect_square : string :=
  "The number of MPI processes must be a perfect square"%string.
Definition msg_length_error : string :=
  "cannot create std::vector larger than max_size()"%string.

(** ** The monad of [main] *)

Definition M (T : Type) : Type := Locals.t -> (Stop + T) * Locals.t * Trace.

Definition ret {T} (v : T) : M T := fun s => (inr v, s, []).

Definition bind {T U} (m : M T) (k : T -> M U) : M U :=
  fun s =>
    match m s with
    | (inl e, s1, t1) => (inl e, s1, t1)
    | (inr v, s1, t1) =>
        match k v s1 with
        | (r, s2, t2) => (r, s2, t1 ++ t2)
        end
    end.

Definition stop {T} (e : Stop) : M T := fun s => (inl e, s, []).
Definition log (e : Event) : M unit := fun s => (inr tt, s, [(e, s)]).
Definition get : M Locals.t := fun s => (inr s, s, []).
Definition modify (f : Locals.t -> Locals.t) : M unit := fun s => (inr tt, f s, []).
Definition when (c : bool) (m : M unit) : M unit := if c then m else ret tt.

Declare Scope prog_scope.
Delimit Scope prog_scope with prog.
Notation "v <- m ;; k" := (bind m (fun v => k))
  (at level 100, m at next level, right associativity) : prog_scope.
Notation "m ;; k" := (bind m (fun _ => k))
  (at level 100, right associativity) : prog_scope.
Open Scope prog_scope.

(** ** Collaborators outside the tree *)

(** Modelled from the spec: the parallel solver [mpi_jacobi] is declared in
    [mpi_jacobi.h], which is not part of the tree.  Section 4.5 of the
    specification gives the iterator two terminal states and has them return
    the current [x] together with a status flag. *)
Inductive Status : Type := CONVERGED | MAX_ITERS_REACHED.

(** Modelled from the spec: what a terminal state of the iterator returns
    (section 4.5), the current [x] and the status flag. *)
Record SolveOutcome : Type := mkOutcome {
  sol_x : list float;
  sol_status : Status
}.

(** The functions [main] calls that are declared in headers outside the
    tree, as parameters of the embedding. *)
Record Extern : Type := mkExtern {
  (* utils.h *)
  diag_dom_rand : Z -> float -> list float;
  randn : Z -> list float;
  (* io.h *)
  read_binary_file : string -> list float;
  (* iss >> v for a stream on the given string and a double v holding the
     given value: the value v holds afterwards (the parsed number, the value
     it had when nothing is extracted, a limit on overflow) *)
  extract_double : string -> float -> float;
  (* jacobi.h: the values the sequential solver leaves in the storage of x *)
  jacobi : Z -> list float -> list float -> list float -> list float;
  (* mpi_jacobi.h: the terminal state of the parallel solver on the calling
     process, identified by its rank *)
  mpi_jacobi : Z -> Z -> list float -> list float -> list float -> Comm -> SolveOutcome
}.

(** The things a process is started with, besides [p] and [rank]. *)
Record World : Type := mkWorld {
  argv : list string;
  ext : Extern;
  (* the value the root contributes to MPI_Bcast; None when the root leaves
     the program before it enters the broadcast *)
  bcast_root : option Z
}.

(** ** Pieces of [main] *)

Definition print_usage : M unit := log EvPrintUsage.

Definition exit {T} (status : Z) : M T := stop (Exited status).

Definition throw_runtime_error {T} (what : string) : M T := stop (Thrown what).

(** Reading the [int n]. *)
Definition read_n : M Z :=
  s <- get ;;
  match Locals.n s with
  | Some v => ret v
  | None => stop (Undefined "n is read before it is written"%string)
  end.

(** [std::vector<double>(n)]: [n] is converted to [size_t]; a size above
    [max_size()] throws [std::length_error], otherwise the vector holds that
    many zeros. *)
Definition vector_max_size : Z := 2 ^ 60 - 1.

Definition new_vector (size : Z) : M (list float) :=
  let sz := CInt.to_size_t size in
  if vector_max_size <? sz then stop (Thrown msg_length_error)
  else ret (repeat 0%float (Z.to_nat sz)).

(** [&v[0]]: the subscript is recorded together with the size of the
    container at that moment; only the address is formed, nothing is read. *)
Definition subscript0 (which : Buffer) (v : list float) : M unit :=
  log (EvSubscript which 0 (List.length v)).

(** What a solver leaves in a vector of which it was handed the address of
    element 0: it writes into the vector's storage and cannot resize it. *)
Definition store (old new : list float) : list float :=
  firstn (List.length old) new ++ skipn (List.length new) old.

Section Main.

Variable w : World.
Variables p rank : Z.

Definition argc : Z := Z.of_nat (List.length (argv w)).
Definition arg (i : nat) : string := nth i (argv w) EmptyString.

(** Lines 87-145: argument handling and input, on rank 0 only. *)
Definition read_input : M unit :=
  when (rank =? 0) (
    when (argc <? 3) (print_usage ;; exit EXIT_FAILURE) ;;
    if String.eqb (arg 1) "-n" then
      (* randomly generate input *)
      modify (Locals.set_n (atoi (arg 2))) ;;
      size <- read_n ;;
      when (negb (size >? 0)) (print_usage ;; exit EXIT_FAILURE) ;;
      difficulty <-
        (if argc =? 5 then
           when (negb (String.eqb (arg 3) "-d")) (print_usage ;; exit EXIT_FAILURE) ;;
           ret (extract_double (ext w) (arg 4) 0.5%float)
         else ret 0.5%float) ;;
      log (EvDiagDomRand size difficulty) ;;
      modify (Locals.set_A (diag_dom_rand (ext w) size difficulty)) ;;
      log (EvRandn size) ;;
      modify (Locals.set_b (randn (ext w) size))
    else
      when (negb (argc =? 4)) (print_usage ;; exit EXIT_FAILURE) ;;
      (* get output filename *)
      modify (Locals.set_outfile_name (arg 3)) ;;
      modify (Locals.set_write_output true) ;;
      (* read input from file *)
      log (EvReadBinaryFile (arg 1)) ;;
      modify (Locals.set_A (read_binary_file (ext w) (arg 1))) ;;
      log (EvReadBinaryFile (arg 2)) ;;
      modify (Locals.set_b (read_binary_file (ext w) (arg 2))) ;;
      s <- get ;;
      modify (Locals.set_n (CInt.wrap (Z.of_nat (List.length (Locals.b s))))) ;;
      size <- read_n ;;
      when (negb (Z.of_nat (List.length (Locals.A s))
                  =? CInt.size_mul (CInt.to_size_t size) (CInt.to_size_t size)))
           (throw_runtime_error msg_dimensions)
  ).

(** Lines 150-157. *)
Definition start_timer : M unit := when (rank =? 0) (log EvClock).

(** [MPI_Bcast(&n, 1, MPI_INT, 0, MPI_COMM_WORLD)]: the root sends the
    value it holds and keeps it; every other process blocks until the root
    enters the broadcast and then stores the root's value. *)
Definition MPI_Bcast_n : M unit :=
  log (EvBcast 0) ;;
  if rank =? 0 then
    v <- read_n ;; modify (Locals.set_n v)
  else
    match bcast_root w with
    | Some v => modify (Locals.set_n v)
    | None => stop Hung
    end.

(** The test of line 164 on the communicator size. *)
Definition not_square (q : Z) : bool := negb (p =? CInt.mul q q).

(** Lines 160-183: the parallel branch. *)
Definition parallel_branch : M unit :=
  MPI_Bcast_n ;;
  (* get the dimensions *)
  let q := int_sqrt p in
  log (EvSquareCheck p q) ;;
  when (not_square q) (throw_runtime_error msg_perfect_square) ;;
  (* create cartesian grid for the processors *)
  let grid_comm := Cart MPI_COMM_WORLD 2 [q; q] [0; 0] 0 in
  log (EvCartCreate grid_comm) ;;
  (* allocate output and run the parallel jacobi implementation *)
  when (rank =? 0) (
    size <- read_n ;;
    v <- new_vector size ;;
    modify (Locals.set_x v)) ;;
  size <- read_n ;;
  s <- get ;;
  subscript0 BufA (Locals.A s) ;;
  subscript0 BufB (Locals.b s) ;;
  subscript0 BufX (Locals.x s) ;;
  log (EvMpiJacobi size (Locals.A s) (Locals.b s) (Locals.x s) grid_comm) ;;
  let r := mpi_jacobi (ext w) rank size (Locals.A s) (Locals.b s) (Locals.x s) grid_comm in
  modify (Locals.set_x (store (Locals.x s) (sol_x r))).

(** Lines 187-196: the sequential branch. *)
Definition sequential_branch : M unit :=
  log EvWarnSequential ;;
  (* sequential jacobi *)
  size <- read_n ;;
  v <- new_vector size ;;
  modify (Locals.set_x v) ;;
  size <- read_n ;;
  s <- get ;;
  subscript0 BufA (Locals.A s) ;;
  subscript0 BufB (Locals.b s) ;;
  subscript0 BufX (Locals.x s) ;;
  log (EvJacobi size (Locals.A s) (Locals.b s) (Locals.x s)) ;;
  modify (Locals.set_x
            (store (Locals.x s)
                   (jacobi (ext w) size (Locals.A s) (Locals.b s) (Locals.x s)))).

(** Lines 158-197. *)
Definition solve : M unit :=
  if p >? 1 then parallel_branch else sequential_branch.

(** Lines 199-218: timing and output, on rank 0 only. *)
Definition report : M unit :=
  when (rank =? 0) (
    log EvClock ;;
    log EvPrintTime ;;
    s <- get ;;
    when (Locals.write_output s)
         (log (EvWriteBinaryFile (Locals.outfile_name s) (Locals.x s)))).

Definition main : M Z :=
  (* set up MPI *)
  log EvMPI_Init ;;
  read_input ;;
  start_timer ;;
  solve ;;
  report ;;
  (* finalize MPI *)
  log EvMPI_Finalize ;;
  ret 0.

(** Running the process from the declarations at the top of [main]. *)
Definition run_main : (Stop + Z) * Locals.t * Trace := main Locals.init.

Definition outcome : Stop + Z := fst (fst run_main).
Definition final : Locals.t := snd (fst run_main).
Definition trace : Trace := snd run_main.
Definition events : list Event := map fst trace.

End Main.

(** ** A run: [p] processes started on the same command line *)

(** The root's argument handling, run from the declarations of [main]. *)
Definition root_input (args : list string) (e : Extern)
  : (Stop + unit) * Locals.t * Trace :=
  read_input (mkWorld args e None) 0 Locals.init.

(** The root gets past argument handling: no usage exit, no dimension error. *)
Definition input_accepted (args : list string) (e : Extern) : bool :=
  match root_input args e with
  | (inr _, _, _) => true
  | (inl _, _, _) => false
  end.

(** The local variables of the root when argument handling is over. *)
Definition root_locals (args : list string) (e : Extern) : Locals.t :=
  snd (fst (root_input args e)).

(** What the root holds in [n] when it enters the broadcast of the parallel
    branch: the result of its argument handling, when that completes. *)
Definition root_contribution (args : list string) (e : Extern) (p : Z) : option Z :=
  if (p >? 1) && input_accepted args e then Locals.n (root_locals args e)
  else None.

(** The world of each process of the run of [p] processes on the command
    line [args]: the broadcast delivers what the root contributes. *)
Definition world_of (args : list string) (e : Extern) (p : Z) : World :=
  mkWorld args e (root_contribution args e p).

(** The ranks [0 .. p-1] and the runs of the processes that hold them. *)
Definition ranks (p : Z) : list Z := map Z.of_nat (seq 0 (Z.to_nat p)).

Definition run (args : list string) (e : Extern) (p : Z)
  : list ((Stop + Z) * Locals.t * Trace) :=
  map (run_main (world_of args e p) p) (ranks p).

(** How the processes of a run end, in rank order. *)
Definition outcomes (args : list string) (e : Extern) (p : Z) : list (Stop + Z) :=
  map (fun r => fst (fst r)) (run args e p).

(** ** Properties of events *)

Definition is_solver_call (ev : Event) : bool :=
  match ev with
  | EvMpiJacobi _ _ _ _ _ | EvJacobi _ _ _ _ => true
  | _ => false
  end.

Definition is_generation (ev : Event) : bool :=
  match ev with
  | EvDiagDomRand _ _ | EvRandn _ => true
  | _ => false
  end.

Definition is_parallel_setup (ev : Event) : bool :=
  match ev with
  | EvBcast _ | EvSquareCheck _ _ | EvCartCreate _ | EvMpiJacobi _ _ _ _ _ => true
  | _ => false
  end.


Definition is_input_event (ev : Event) : bool :=
  match ev with
  | EvPrintUsage | EvDiagDomRand _ _ | EvRandn _ | EvReadBinaryFile _ => true
  | _ => false
  end.

Definition is_bcast (ev : Event) : bool :=
  match ev with EvBcast _ => true | _ => false end.


Definition is_cart_create (ev : Event) : bool :=
  match ev with EvCartCreate _ => true | _ => false end.

Definition is_jacobi (ev : Event) : bool :=
  match ev with EvJacobi _ _ _ _ => true | _ => false end.

(** A subscript outside the container. *)
Definition out_of_range (ev : Event) : bool :=
  match ev with
  | EvSubscript _ i size => negb ((0 <=? i) && (i <? Z.of_nat size))
  | _ => false
  end.

(** ** Derived notions used in the statements *)

(** Lines 147-224 of [main]: what follows argument handling. *)
Definition continuation (w : World) (p rank : Z) : M Z :=
  start_timer rank ;;
  solve w p rank ;;
  report rank ;;
  log EvMPI_Finalize ;;
  ret 0.

(** The grid built at lines 170-173. *)
Definition grid_of (p : Z) : Comm :=
  Cart MPI_COMM_WORLD 2 [int_sqrt p; int_sqrt p] [0; 0] 0.

(** The last entries of the root's trace (lines 199-222). *)
Definition root_tail (s : Locals.t) : Trace :=
  [(EvClock, s); (EvPrintTime, s)]
    ++ (if Locals.write_output s
        then [(EvWriteBinaryFile (Locals.outfile_name s) (Locals.x s), s)]
        else [])
    ++ [(EvMPI_Finalize, s)].

(** The entries of a trace before, and after, its first event of a kind. *)
Fixpoint before_first (P : Event -> bool) (t : Trace) : Trace :=
  match t with
  | [] => []
  | en :: t' => if P (fst en) then [] else en :: before_first P t'
  end.

Fixpoint after_first (P : Event -> bool) (t : Trace) : Trace :=
  match t with
  | [] => []
  | en :: t' => if P (fst en) then t' else after_first P t'
  end.

(** The process ends in the configuration error of line 166. *)
Definition raises_configuration_error (w : World) (p rank : Z) : Prop :=
  outcome w p rank = inl (Thrown msg_perfect_square).

(** The process performs the test of line 164. *)
Definition checks_square (w : World) (p rank : Z) : Prop :=
  In (EvSquareCheck p (int_sqrt p)) (events w p rank).

(** The process calls the sequential solver. *)
Definition calls_jacobi (w : World) (p rank : Z) : Prop :=
  existsb is_jacobi (events w p rank) = true.

(** The size argument of [-n] has no digits to parse. *)
Definition non_numeric (s : string) : bool :=
  match snd (strip_sign (skip_space s)) with
  | String c _ =>
      match digit_of c with
      | Some _ => false
      | None => true
      end
  | EmptyString => true
  end.

(** ** Notions for the paths of [main] *)

(** The tests of lines 89, 99, 108 and 124 put together: the command lines on
    which the root prints the usage and calls [exit(EXIT_FAILURE)]. *)
Definition usage_error (w : World) : bool :=
  (argc w <? 3)
  || (if String.eqb (arg w 1) "-n"
      then negb (atoi (arg w 2) >? 0)
           || ((argc w =? 5) && negb (String.eqb (arg w 3) "-d"))
      else negb (argc w =? 4)).

Definition is_file_read (ev : Event) : bool :=
  match ev with EvReadBinaryFile _ => true | _ => false end.

Definition is_file_write (ev : Event) : bool :=
  match ev with EvWriteBinaryFile _ _ => true | _ => false end.

Definition is_clock (ev : Event) : bool :=
  match ev with EvClock => true | _ => false end.


(** The difficulty handed to [diag_dom_rand] (lines 105-115): 0.5 unless
    there are exactly five arguments, in which case it is what [difficulty],
    initialised to 0.5, holds after the stream extraction from the last one. *)
Definition difficulty_of (w : World) : float :=
  if argc w =? 5 then extract_double (ext w) (arg w 4) 0.5%float
  else 0.5%float.

(** ** Sample collaborators, for concrete runs *)

Module Sample.

Definition ones (k : Z) : list float := repeat 1%float (Z.to_nat k).

Definition files (path : string) : list float :=
  if String.eqb path "A.bin" then [4; 1; 1; 4]%float
  else if String.eqb path "b.bin" then [1; 2]%float
  else if String.eqb path "b3.bin" then [1; 2; 3]%float
  else [].

(** A solver stand-in that fills the storage it is given and reports the
    given status. *)
Definition solver (st : Status) (rank size : Z) (A b x : list float) (c : Comm)
  : SolveOutcome :=
  mkOutcome (ones size) st.

Definition externals (st : Status) : Extern :=
  mkExtern
    (fun size _ => ones (size * size))
    ones
    files
    (fun _ d => d)
    (fun size _ _ _ => ones size)
    (solver st).

Definition ext0 : Extern := externals CONVERGED.

Definition random2 : list string := ["./jacobi"; "-n"; "2"]%string.
Definition from_files : list string :=
  ["./jacobi"; "A.bin"; "b.bin"; "x.bin"]%string.
Definition mismatched : list string :=
  ["./jacobi"; "A.bin"; "b3.bin"; "x.bin"]%string.
Definition no_arguments : list string := ["./jacobi"]%string.
Definition bad_size : list string := ["./jacobi"; "-n"; "abc"]%string.
Definition bad_option : list string :=
  ["./jacobi"; "-n"; "2"; "-x"; "0.3"]%string.
Definition trailing_option : list string :=
  ["./jacobi"; "-n"; "2"; "-d"]%string.
Definition empty_files : list string :=
  ["./jacobi"; "none.bin"; "none.bin"; "x.bin"]%string.





End Sample.

(** * Reasoning about the embedding *)

(** Symbolic execution: unfold the program text and the monad, nothing else. *)
Ltac exec :=
  cbv beta iota zeta delta
    [run_main outcome final trace events continuation root_input
     main read_input start_timer solve parallel_branch sequential_branch report
     MPI_Bcast_n bind when ret log get modify stop exit throw_runtime_error
     print_usage read_n subscript0
     Locals.A Locals.b Locals.x Locals.n Locals.write_output Locals.outfile_name
     Locals.set_A Locals.set_b Locals.set_x Locals.set_n Locals.set_write_output
     Locals.set_outfile_name Locals.init
     argv ext bcast_root world_of fst snd app map].

(** Case analysis on the next test of the program. *)
Ltac branch :=
  match goal with
  | |- context [if ?c then _ else _] => destruct c eqn:?
  | |- context [match ?o with Some _ => _ | None => _ end] => destruct o eqn:?
  end.

(** ** Machine integers *)

Lemma wrap_small z : CInt.in_int z -> CInt.wrap z = z.
Proof.
  unfold CInt.in_int, CInt.wrap. intros H.
  rewrite Z.mod_small by lia. lia.
Qed.

Lemma wrap_range z : CInt.in_int (CInt.wrap z).
Proof.
  unfold CInt.in_int, CInt.wrap.
  pose proof (Z.mod_pos_bound (z + 2 ^ 31) (2 ^ 32) ltac:(lia)). lia.
Qed.

(** A vector can be created with an [int] size exactly when the size is not
    negative. *)
Lemma size_fits v :
  CInt.in_int v -> (vector_max_size <? CInt.to_size_t v) = false <-> 0 <= v.
Proof.
  unfold CInt.in_int, CInt.to_size_t, vector_max_size. intros H.
  rewrite Z.ltb_ge. split; intros H1.
  - destruct (Z_lt_le_dec v 0) as [Hneg|]; [|assumption].
    replace v with (v + 2 ^ 64 + (-1) * 2 ^ 64) in H1 by lia.
    rewrite Z.mod_add, Z.mod_small in H1 by lia. lia.
  - rewrite Z.mod_small by lia. lia.
Qed.

Lemma to_size_t_small v : 0 <= v < 2 ^ 64 -> CInt.to_size_t v = v.
Proof.
  intros H. unfold CInt.to_size_t. apply Z.mod_small. assumption.
Qed.

(** The square of the integer root of an [int] does not overflow, so the test
    of line 164 fails exactly on the perfect squares. *)
Lemma not_square_spec p :
  0 <= p < 2 ^ 31 ->
  not_square p (int_sqrt p) = negb (p =? int_sqrt p * int_sqrt p).
Proof.
  intros Hp. unfold not_square, CInt.mul, int_sqrt.
  pose proof (Z.sqrt_spec p ltac:(lia)) as Hs.
  pose proof (Z.sqrt_nonneg p) as Hq.
  rewrite wrap_small; [reflexivity|].
  unfold CInt.in_int. destruct Hs as [Hs _].
  assert (0 <= Z.sqrt p * Z.sqrt p) by (apply Z.mul_nonneg_nonneg; assumption).
  lia.
Qed.

Lemma perfect_square_iff p :
  0 <= p -> (exists k, p = k * k) <-> p = int_sqrt p * int_sqrt p.
Proof.
  intros Hp. unfold int_sqrt. split.
  - intros [k ->].
    replace (k * k) with (Z.abs k * Z.abs k) by (destruct k; simpl; lia).
    rewrite Z.sqrt_square by lia. reflexivity.
  - intros H. exists (Z.sqrt p). assumption.
Qed.

(** The square root on doubles and the integer square root agree at every
    perfect square [q * q < 2^31] ([q <= 46340]) and at its predecessor, the
    two places where a rounding error would change the truncated root. *)
Lemma double_sqrt_at_squares :
  DoubleSqrt.all_upto 46340 DoubleSqrt.agree_around = true.
Proof.
  vm_compute. reflexivity.
Qed.

(** ** [atoi] *)

Lemma atoi_non_numeric s : non_numeric s = true -> atoi s = 0.
Proof.
  unfold non_numeric, atoi, strtol.
  destruct (strip_sign (skip_space s)) as [neg s2]. simpl.
  intros H.
  assert (Hd : digits 0 s2 = 0).
  { destruct s2 as [|c r]; [reflexivity|].
    simpl. destruct (digit_of c); [discriminate | reflexivity]. }
  rewrite Hd. destruct neg; reflexivity.
Qed.

(** ** Storage *)

(** A solver writes nothing into an empty vector and never changes a size. *)
Lemma store_nil new : store [] new = [].
Proof.
  unfold store. simpl. apply skipn_nil.
Qed.

Lemma store_length old new : List.length (store old new) = List.length old.
Proof.
  unfold store.
  rewrite length_app, length_firstn, length_skipn. lia.
Qed.

(** ** Traces *)

Lemma before_first_app P t1 t2 :
  Forall (fun en => P (fst en) = false) t1 ->
  before_first P (t1 ++ t2) = t1 ++ before_first P t2.
Proof.
  induction 1 as [|en t1 Hen _ IH]; simpl; [reflexivity|].
  rewrite Hen, IH. reflexivity.
Qed.

Lemma after_first_app P t1 t2 :
  Forall (fun en => P (fst en) = false) t1 ->
  after_first P (t1 ++ t2) = after_first P t2.
Proof.
  induction 1 as [|en t1 Hen _ IH]; simpl; [reflexivity|].
  rewrite Hen, IH. reflexivity.
Qed.

Lemma before_first_none P t :
  Forall (fun en => P (fst en) = false) t -> before_first P t = t.
Proof.
  induction 1 as [|en t Hen _ IH]; simpl; [reflexivity|].
  rewrite Hen, IH. reflexivity.
Qed.

Lemma after_first_none P t :
  Forall (fun en => P (fst en) = false) t -> after_first P t = [].
Proof.
  induction 1 as [|en t Hen _ IH]; simpl; [reflexivity|].
  rewrite Hen, IH. reflexivity.
Qed.

(** ** Argument handling *)

(** Only rank 0 handles the command line. *)
Lemma read_input_nonroot w rank s :
  rank <> 0 -> read_input w rank s = (inr tt, s, []).
Proof.
  intros H. unfold read_input, when.
  destruct (Z.eqb_spec rank 0); [contradiction | reflexivity].
Qed.

(** On rank 0, argument handling only prints the usage, generates or reads
    the input, never touches [x], and either leaves the program through
    [exit(EXIT_FAILURE)] or the dimension error, or completes with an
    [int] stored in [n]. *)
Lemma read_input_root w s0 :
  match read_input w 0 s0 with
  | (r, s, t) =>
      Forall (fun en => is_input_event (fst en) = true
                        /\ Locals.x (snd en) = Locals.x s0) t
      /\ Locals.x s = Locals.x s0
      /\ match r with
         | inr _ => exists v, Locals.n s = Some v /\ CInt.in_int v
         | inl e => e = Exited EXIT_FAILURE \/ e = Thrown msg_dimensions
         end
  end.
Proof.
  destruct s0 as [A0 b0 x0 wo0 on0 n0].
  exec. change (0 =? 0) with true. cbv iota.
  repeat branch; cbv beta iota;
    repeat split;
    repeat (apply Forall_cons; [split; reflexivity|]);
    try apply Forall_nil; auto;
    eexists; (split; [reflexivity | apply wrap_range]).
Qed.

Lemma read_input_world w1 w2 rank s :
  argv w1 = argv w2 -> ext w1 = ext w2 ->
  read_input w1 rank s = read_input w2 rank s.
Proof.
  destruct w1, w2; simpl; intros -> ->; reflexivity.
Qed.

Lemma read_input_world_of args e p :
  read_input (world_of args e p) 0 Locals.init = root_input args e.
Proof.
  apply read_input_world; reflexivity.
Qed.

(** ** The shape of a run *)

Lemma run_main_split w p rank :
  run_main w p rank =
  match read_input w rank Locals.init with
  | (inl e, s1, t1) => (inl e, s1, (EvMPI_Init, Locals.init) :: t1)
  | (inr _, s1, t1) =>
      match continuation w p rank s1 with
      | (r, s2, t2) => (r, s2, (EvMPI_Init, Locals.init) :: t1 ++ t2)
      end
  end.
Proof.
  unfold run_main, main, continuation.
  unfold bind at 1. unfold log at 1. unfold bind at 1.
  destruct (read_input w rank Locals.init) as [[[e|[]] s1] t1]; [reflexivity|].
  match goal with
  | |- context [bind ?m ?k s1] => destruct (bind m k s1) as [[r s2] t2]
  end.
  reflexivity.
Qed.

(** A process other than the root: the whole run, case by case. *)
Lemma run_nonroot w p rank :
  rank <> 0 ->
  run_main w p rank =
  let s0 := Locals.init in
  if p >? 1 then
    match bcast_root w with
    | None => (inl Hung, s0, [(EvMPI_Init, s0); (EvBcast 0, s0)])
    | Some v =>
        let s := Locals.set_n v s0 in
        if not_square p (int_sqrt p) then
          (inl (Thrown msg_perfect_square), s,
           [(EvMPI_Init, s0); (EvBcast 0, s0); (EvSquareCheck p (int_sqrt p), s)])
        else
          (inr 0, s,
           [(EvMPI_Init, s0); (EvBcast 0, s0); (EvSquareCheck p (int_sqrt p), s);
            (EvCartCreate (grid_of p), s);
            (EvSubscript BufA 0 0, s); (EvSubscript BufB 0 0, s);
            (EvSubscript BufX 0 0, s);
            (EvMpiJacobi v [] [] [] (grid_of p), s);
            (EvMPI_Finalize, s)])
    end
  else
    (inl (Undefined "n is read before it is written"), s0,
     [(EvMPI_Init, s0); (EvWarnSequential, s0)]).
Proof.
  intros Hr. apply Z.eqb_neq in Hr.
  exec. rewrite Hr. cbv iota.
  repeat branch; rewrite ?store_nil; reflexivity.
Qed.

(** The root in the parallel branch, from the state [s1] in which argument
    handling left it. *)
Lemma continuation_root_parallel w p A0 b0 x0 wo name v :
  1 < p ->
  let s1 := Locals.mk A0 b0 x0 wo name (Some v) in
  continuation w p 0 s1 =
  let q := int_sqrt p in
  if not_square p q then
    (inl (Thrown msg_perfect_square), s1,
     [(EvClock, s1); (EvBcast 0, s1); (EvSquareCheck p q, s1)])
  else if vector_max_size <? CInt.to_size_t v then
    (inl (Thrown msg_length_error), s1,
     [(EvClock, s1); (EvBcast 0, s1); (EvSquareCheck p q, s1);
      (EvCartCreate (grid_of p), s1)])
  else
    let xs := repeat 0%float (Z.to_nat (CInt.to_size_t v)) in
    let s2 := Locals.set_x xs s1 in
    let r := mpi_jacobi (ext w) 0 v A0 b0 xs (grid_of p) in
    let s3 := Locals.set_x (store xs (sol_x r)) s2 in
    (inr 0, s3,
     [(EvClock, s1); (EvBcast 0, s1); (EvSquareCheck p q, s1);
      (EvCartCreate (grid_of p), s1);
      (EvSubscript BufA 0 (List.length A0), s2);
      (EvSubscript BufB 0 (List.length b0), s2);
      (EvSubscript BufX 0 (List.length xs), s2);
      (EvMpiJacobi v A0 b0 xs (grid_of p), s2)] ++ root_tail s3).
Proof.
  intros Hp. apply Z.gtb_lt in Hp. unfold root_tail.
  exec. rewrite Hp. change (0 =? 0) with true. cbv iota.
  unfold new_vector. exec.
  repeat branch; reflexivity.
Qed.

(** The root in the sequential branch. *)
Lemma continuation_root_sequential w p A0 b0 x0 wo name v :
  p <= 1 ->
  let s1 := Locals.mk A0 b0 x0 wo name (Some v) in
  continuation w p 0 s1 =
  if vector_max_size <? CInt.to_size_t v then
    (inl (Thrown msg_length_error), s1,
     [(EvClock, s1); (EvWarnSequential, s1)])
  else
    let xs := repeat 0%float (Z.to_nat (CInt.to_size_t v)) in
    let s2 := Locals.set_x xs s1 in
    let s3 := Locals.set_x (store xs (jacobi (ext w) v A0 b0 xs)) s2 in
    (inr 0, s3,
     [(EvClock, s1); (EvWarnSequential, s1);
      (EvSubscript BufA 0 (List.length A0), s2);
      (EvSubscript BufB 0 (List.length b0), s2);
      (EvSubscript BufX 0 (List.length xs), s2);
      (EvJacobi v A0 b0 xs, s2)] ++ root_tail s3).
Proof.
  intros Hp. apply Z.ltb_ge in Hp. rewrite <- Z.gtb_ltb in Hp.
  unfold root_tail.
  exec. rewrite Hp. change (0 =? 0) with true. cbv iota.
  unfold new_vector. exec.
  repeat branch; reflexivity.
Qed.

(** ** The root's input and what it offers to the broadcast *)

Lemma root_input_spec args e :
  match root_input args e with
  | (r, s, t) =>
      Forall (fun en => is_input_event (fst en) = true /\ Locals.x (snd en) = []) t
      /\ Locals.x s = []
      /\ root_locals args e = s
      /\ match r with
         | inr _ =>
             input_accepted args e = true
             /\ exists v, Locals.n s = Some v /\ CInt.in_int v
                          /\ forall p, 1 < p -> root_contribution args e p = Some v
         | inl st =>
             input_accepted args e = false
             /\ (forall p, root_contribution args e p = None)
             /\ (st = Exited EXIT_FAILURE \/ st = Thrown msg_dimensions)
         end
  end.
Proof.
  pose proof (read_input_root (mkWorld args e None) Locals.init) as H.
  unfold root_contribution, input_accepted, root_locals.
  fold (root_input args e) in H.
  destruct (root_input args e) as [[[st|[]] s] t];
    destruct H as (Hin & Hx & Hr); (split; [exact Hin|]); (split; [exact Hx|]);
    (split; [reflexivity|]).
  - split; [reflexivity|]. split; [|exact Hr].
    intros p. rewrite andb_false_r. reflexivity.
  - split; [reflexivity|]. destruct Hr as (v & Hn & Hv).
    exists v. split; [assumption|]. split; [assumption|].
    intros p Hp. apply Z.gtb_lt in Hp. rewrite Hp. simpl. exact Hn.
Qed.

(** Without a root in the broadcast, the other processes wait in it. *)
Lemma nonroot_without_root args e p rank :
  rank <> 0 -> input_accepted args e = false ->
  run_main (world_of args e p) p rank =
  if p >? 1 then
    (inl Hung, Locals.init, [(EvMPI_Init, Locals.init); (EvBcast 0, Locals.init)])
  else
    (inl (Undefined "n is read before it is written"), Locals.init,
     [(EvMPI_Init, Locals.init); (EvWarnSequential, Locals.init)]).
Proof.
  intros Hr Hacc. rewrite run_nonroot by assumption.
  cbn [bcast_root world_of]. unfold root_contribution.
  rewrite Hacc, andb_false_r. reflexivity.
Qed.

(** When the root leaves during argument handling, its run is the prefix. *)
Lemma root_rejected args e p st s t :
  root_input args e = (inl st, s, t) ->
  run_main (world_of args e p) p 0 = (inl st, s, (EvMPI_Init, Locals.init) :: t).
Proof.
  intros H. rewrite run_main_split, read_input_world_of, H. reflexivity.
Qed.

(** The [-n] path with a size that is not positive (lines 95-103). *)
Lemma root_input_bad_size e prog s rest :
  atoi s <= 0 ->
  root_input (prog :: "-n"%string :: s :: rest) e =
  (inl (Exited EXIT_FAILURE), Locals.set_n (atoi s) Locals.init,
   [(EvPrintUsage, Locals.set_n (atoi s) Locals.init)]).
Proof.
  intros Hs. unfold root_input, read_input, argc, arg.
  cbn [argv ext List.length nth].
  assert (Hargc : (Z.of_nat (S (S (S (List.length rest)))) <? 3) = false)
    by (apply Z.ltb_ge; lia).
  rewrite Hargc.
  change (String.eqb "-n" "-n") with true.
  assert (Hn : negb (atoi s >? 0) = true).
  { rewrite Z.gtb_ltb. apply negb_true_iff, Z.ltb_ge. exact Hs. }
  exec. change (0 =? 0) with true. cbv iota. rewrite Hn. reflexivity.
Qed.




(** The run of the root, by the way its argument handling ends. *)
Lemma root_run_cases w p :
  (exists st s t,
      read_input w 0 Locals.init = (inl st, s, t)
      /\ (st = Exited EXIT_FAILURE \/ st = Thrown msg_dimensions)
      /\ Forall (fun en => is_input_event (fst en) = true
                           /\ Locals.x (snd en) = []) t
      /\ run_main w p 0 = (inl st, s, (EvMPI_Init, Locals.init) :: t))
  \/ (exists A1 b1 wo name v t1,
         let s1 := Locals.mk A1 b1 [] wo name (Some v) in
         read_input w 0 Locals.init = (inr tt, s1, t1)
         /\ CInt.in_int v
         /\ Forall (fun en => is_input_event (fst en) = true
                              /\ Locals.x (snd en) = []) t1
         /\ run_main w p 0 =
            match continuation w p 0 s1 with
            | (r, s2, t2) => (r, s2, (EvMPI_Init, Locals.init) :: t1 ++ t2)
            end).
Proof.
  rewrite run_main_split.
  pose proof (read_input_root w Locals.init) as H.
  destruct (read_input w 0 Locals.init) as [[[st|[]] s] t];
    destruct H as (Hin & Hx & Hr).
  - left. exists st, s, t. repeat split; assumption.
  - right. destruct Hr as (v & Hn & Hv).
    destruct s as [A1 b1 x1 wo name n1].
    cbn [Locals.x Locals.n Locals.init] in Hx, Hn. subst x1 n1.
    exists A1, b1, wo, name, v, t. cbv zeta.
    split; [reflexivity|]. split; [assumption|]. split; [assumption|].
    reflexivity.
Qed.

(** ** Tools *)

Lemma input_events_forall (Q : Event -> Prop) (t : Trace) :
  (forall ev, is_input_event ev = true -> Q ev) ->
  Forall (fun en => is_input_event (fst en) = true /\ Locals.x (snd en) = []) t ->
  Forall Q (map fst t).
Proof.
  intros HQ Ht. apply Forall_map. eapply Forall_impl; [|exact Ht].
  intros [ev s] [Hi _]. apply HQ. exact Hi.
Qed.

Lemma accepted_not_rejected args e p st s t :
  input_accepted args e = true ->
  read_input (world_of args e p) 0 Locals.init = (inl st, s, t) -> False.
Proof.
  intros Hacc Hread. rewrite read_input_world_of in Hread.
  unfold input_accepted in Hacc. rewrite Hread in Hacc. discriminate.
Qed.

Lemma accepted_contribution args e p :
  input_accepted args e = true -> 1 < p ->
  exists v, root_contribution args e p = Some v
            /\ Locals.n (root_locals args e) = Some v /\ CInt.in_int v.
Proof.
  intros Hacc Hp. pose proof (root_input_spec args e) as H.
  destruct (root_input args e) as [[[st|[]] s] t];
    destruct H as (_ & _ & Hloc & H).
  - destruct H as (H & _). congruence.
  - destruct H as (_ & v & Hn & Hv & Hc).
    exists v. rewrite Hloc. auto.
Qed.

(** An input event of the root is neither the test of line 164 nor a call of
    the parallel solver. *)
Lemma in_input_events ev (t : Trace) :
  Forall (fun en => is_input_event (fst en) = true /\ Locals.x (snd en) = []) t ->
  In ev (map fst t) -> is_input_event ev = true.
Proof.
  intros Ht Hev. apply in_map_iff in Hev. destruct Hev as ([ev' s] & <- & Hen).
  rewrite Forall_forall in Ht. exact (proj1 (Ht _ Hen)).
Qed.

Lemma in_input_entries en (t : Trace) :
  Forall (fun en => is_input_event (fst en) = true /\ Locals.x (snd en) = []) t ->
  In en t -> is_input_event (fst en) = true /\ Locals.x (snd en) = [].
Proof.
  intros Ht Hen. rewrite Forall_forall in Ht. exact (Ht _ Hen).
Qed.

Lemma input_entries_not (P : Event -> bool) (t : Trace) :
  (forall ev, is_input_event ev = true -> P ev = false) ->
  Forall (fun en => is_input_event (fst en) = true /\ Locals.x (snd en) = []) t ->
  Forall (fun en => P (fst en) = false) t.
Proof.
  intros HP Ht. eapply Forall_impl; [|exact Ht].
  intros [ev s] [Hi _]. apply HP. exact Hi.
Qed.

Lemma input_not_bcast ev : is_input_event ev = true -> is_bcast ev = false.
Proof.
  destruct ev; try discriminate; reflexivity.
Qed.

Lemma input_not_cart_create ev :
  is_input_event ev = true -> is_cart_create ev = false.
Proof.
  destruct ev; try discriminate; reflexivity.
Qed.

(** Membership in an explicit list, by cases. *)
Ltac in_cases H :=
  repeat (destruct H as [H|H]; [try discriminate H | ]);
  try contradiction.


(** Every entry of an explicit list of events satisfies a decidable property. *)
Ltac listed :=
  repeat (apply Forall_cons; [repeat split; reflexivity|]); apply Forall_nil.

(** Destructure the run of the root. *)
Ltac root_cases w p :=
  let st := fresh "st" in
  let s := fresh "s" in
  let t := fresh "t" in
  let A1 := fresh "A1" in
  let b1 := fresh "b1" in
  let wo := fresh "wo" in
  let name := fresh "name" in
  let v := fresh "v" in
  destruct (root_run_cases w p)
    as [(st & s & t & Hread & Hst & Hin & Hrun)
       |(A1 & b1 & wo & name & v & t & Hread & Hv & Hin & Hrun)];
  cbv zeta in *.

(** * Properties of the driver *)

(** ** C1: a process count that is not a perfect square *)

(** C1 (as amended). For a process count [p > 1] that is not a perfect
    square, no process of the run creates the grid or calls a solver; and in
    every run of which the root accepts the command line and the input, every
    process ends in the runtime error saying that the number of MPI processes
    must be a perfect square. *)
Theorem not_square_raises_before_solve args e p :
  1 < p < 2 ^ 31 ->
  p <> int_sqrt p * int_sqrt p ->
  let w := world_of args e p in
  (forall rank,
      Forall (fun ev => is_solver_call ev = false /\ is_cart_create ev = false)
             (events w p rank))
  /\ (input_accepted args e = true ->
      forall rank, raises_configuration_error w p rank).
Proof.
  intros Hp Hsq w.
  assert (Hns : not_square p (int_sqrt p) = true).
  { rewrite not_square_spec by lia. apply negb_true_iff, Z.eqb_neq. assumption. }
  assert (Hgt : (p >? 1) = true) by (apply Z.gtb_lt; lia).
  split.
  - intros rank. unfold events, trace.
    destruct (Z.eq_dec rank 0) as [->|Hr].
    + root_cases w p; rewrite Hrun.
      * cbn [snd map fst]. apply Forall_cons; [split; reflexivity|].
        apply input_events_forall; [|exact Hin].
        intros ev Hev. destruct ev; try discriminate; split; reflexivity.
      * rewrite continuation_root_parallel by lia. cbv zeta. rewrite Hns.
        cbn [snd]. rewrite map_cons, map_app.
        apply Forall_cons; [split; reflexivity|].
        apply Forall_app. split.
        -- apply input_events_forall; [|exact Hin].
           intros ev Hev. destruct ev; try discriminate; split; reflexivity.
        -- cbn [map fst]. listed.
    + rewrite run_nonroot by assumption. cbv zeta. rewrite Hgt.
      destruct (bcast_root w); [rewrite Hns|]; cbn [snd map fst]; listed.
  - intros Hacc rank. unfold raises_configuration_error, outcome.
    destruct (Z.eq_dec rank 0) as [->|Hr].
    + root_cases w p.
      * exfalso. exact (accepted_not_rejected args e p _ _ _ Hacc Hread).
      * rewrite Hrun, continuation_root_parallel by lia. cbv zeta.
        rewrite Hns. reflexivity.
    + rewrite run_nonroot by assumption. cbv zeta. rewrite Hgt.
      destruct (accepted_contribution args e p Hacc ltac:(lia)) as (v & Hc & _).
      cbn [bcast_root w world_of]. rewrite Hc, Hns. reflexivity.
Qed.

Lemma not_square_raises_before_solve_witness :
  raises_configuration_error (world_of Sample.random2 Sample.ext0 2) 2 0
  /\ raises_configuration_error (world_of Sample.random2 Sample.ext0 2) 2 1.
Proof.
  assert (Hp : 1 < 2 < 2 ^ 31) by lia.
  assert (Hsq : 2 <> int_sqrt 2 * int_sqrt 2) by (vm_compute; discriminate).
  destruct (not_square_raises_before_solve Sample.random2 Sample.ext0 2 Hp Hsq)
    as [_ H].
  split; apply H; reflexivity.
Defined.

(** C1 as stated fails: with two processes and no command-line argument the
    root prints the usage and leaves through [exit(EXIT_FAILURE)] at line 92;
    it never raises the perfect-square error. *)
Lemma not_square_usage_exit :
  1 < 2
  /\ 2 <> int_sqrt 2 * int_sqrt 2
  /\ outcome (world_of Sample.no_arguments Sample.ext0 2) 2 0
     = inl (Exited EXIT_FAILURE)
  /\ ~ raises_configuration_error (world_of Sample.no_arguments Sample.ext0 2) 2 0.
Proof.
  split; [lia|]. split; [vm_compute; discriminate|].
  split; [reflexivity|].
  unfold raises_configuration_error. vm_compute. discriminate.
Qed.

(** ** C3: subscripts on the processes that hold no data *)

(** On a process other than the root the three vectors are empty when the
    arguments of [mpi_jacobi] are formed, and each [&v[0]] there subscripts
    an empty vector. *)
Lemma nonroot_subscripts w p rank :
  rank <> 0 ->
  forall size A b x c,
    In (EvMpiJacobi size A b x c) (events w p rank) ->
    A = [] /\ b = [] /\ x = []
    /\ In (EvSubscript BufA 0 0) (events w p rank)
    /\ In (EvSubscript BufB 0 0) (events w p rank)
    /\ In (EvSubscript BufX 0 0) (events w p rank).
Proof.
  intros Hr size A b x c H. unfold events, trace in *.
  rewrite run_nonroot in * by assumption. cbv zeta in *.
  destruct (p >? 1);
    [destruct (bcast_root w) as [v|];
     [destruct (not_square p (int_sqrt p))|]|];
    cbn [snd map fst] in *; in_cases H.
  injection H as _ <- <- <- _.
  repeat split; try reflexivity.
  - do 4 right. left. reflexivity.
  - do 5 right. left. reflexivity.
  - do 6 right. left. reflexivity.
Qed.

Lemma nonroot_subscripts_witness :
  In (EvSubscript BufA 0 0) (events (world_of Sample.random2 Sample.ext0 4) 4 1)
  /\ In (EvSubscript BufB 0 0) (events (world_of Sample.random2 Sample.ext0 4) 4 1)
  /\ In (EvSubscript BufX 0 0) (events (world_of Sample.random2 Sample.ext0 4) 4 1).
Proof.
  refine (proj2 (proj2 (proj2 (nonroot_subscripts
            (world_of Sample.random2 Sample.ext0 4) 4 1 _
            2 [] [] [] (Cart MPI_COMM_WORLD 2 [2; 2] [0; 0] 0) _)))).
  - discriminate.
  - vm_compute. auto 10.
Defined.

(** C3. The run of rank 1 on a 2 x 2 grid started with [-n 2]: the three
    vectors are empty, as the claim says, but the arguments of [mpi_jacobi]
    are formed by subscripting element 0 of each of them, which is outside
    the (empty) container. *)
Theorem nonroot_subscripts_empty_vectors :
  events (world_of Sample.random2 Sample.ext0 4) 4 1
  = [EvMPI_Init; EvBcast 0; EvSquareCheck 4 2;
     EvCartCreate (Cart MPI_COMM_WORLD 2 [2; 2] [0; 0] 0);
     EvSubscript BufA 0 0; EvSubscript BufB 0 0; EvSubscript BufX 0 0;
     EvMpiJacobi 2 [] [] [] (Cart MPI_COMM_WORLD 2 [2; 2] [0; 0] 0);
     EvMPI_Finalize]
  /\ filter out_of_range (events (world_of Sample.random2 Sample.ext0 4) 4 1)
     = [EvSubscript BufA 0 0; EvSubscript BufB 0 0; EvSubscript BufX 0 0].
Proof.
  split; reflexivity.
Qed.

(** ** C4: a single process *)

(** C4 (as amended). With a single process the driver never broadcasts [n],
    never tests the process count, never builds the grid and never calls
    [mpi_jacobi]; and in every run of which the root accepts the command line
    and the input, with a size [n >= 0], it calls [jacobi(n, A, b, x)] on the
    input and a fresh vector of [n] zeros and returns 0. *)
Theorem single_process_runs_sequential args e :
  let w := world_of args e 1 in
  Forall (fun ev => is_parallel_setup ev = false) (events w 1 0)
  /\ (input_accepted args e = true ->
      forall v, Locals.n (root_locals args e) = Some v -> 0 <= v ->
      In (EvJacobi v (Locals.A (root_locals args e)) (Locals.b (root_locals args e))
                   (repeat 0%float (Z.to_nat v)))
         (events w 1 0)
      /\ outcome w 1 0 = inr 0).
Proof.
  intros w. split.
  - unfold events, trace. root_cases w 1; rewrite Hrun.
    + cbn [snd map fst]. apply Forall_cons; [reflexivity|].
      apply input_events_forall; [|exact Hin].
      intros ev Hev. destruct ev; try discriminate; reflexivity.
    + rewrite continuation_root_sequential by lia. cbv zeta.
      destruct (vector_max_size <? CInt.to_size_t v);
        cbn [snd]; rewrite map_cons, map_app;
        (apply Forall_cons; [reflexivity|]);
        (apply Forall_app; split;
         [apply input_events_forall; [|exact Hin];
          intros ev Hev; destruct ev; try discriminate; reflexivity|]).
      * cbn [map fst]. listed.
      * unfold root_tail. destruct wo; cbn [map fst app Locals.write_output Locals.set_x];
          listed.
  - intros Hacc v Hn Hv0. unfold events, trace, outcome.
    root_cases w 1.
    + exfalso. exact (accepted_not_rejected args e 1 _ _ _ Hacc Hread).
    + assert (Hloc : root_locals args e = Locals.mk A1 b1 [] wo name (Some v0)).
      { unfold root_locals. rewrite <- (read_input_world_of args e 1).
        fold w. rewrite Hread. reflexivity. }
      rewrite Hloc in *. cbn [Locals.n Locals.A Locals.b] in *.
      injection Hn as <-.
      rewrite Hrun, continuation_root_sequential by lia. cbv zeta.
      rewrite (proj2 (size_fits v0 Hv) Hv0).
      rewrite to_size_t_small by (unfold CInt.in_int in Hv; lia).
      cbn [snd fst]. split; [|reflexivity].
      rewrite map_cons, map_app. right. apply in_or_app. right.
      cbn [map fst app]. do 5 right. left. reflexivity.
Qed.

Lemma single_process_runs_sequential_witness :
  In (EvJacobi 2 [4; 1; 1; 4]%float [1; 2]%float [0; 0]%float)
     (events (world_of Sample.from_files Sample.ext0 1) 1 0)
  /\ outcome (world_of Sample.from_files Sample.ext0 1) 1 0 = inr 0.
Proof.
  refine (proj2 (single_process_runs_sequential Sample.from_files Sample.ext0)
                _ 2 _ _).
  - reflexivity.
  - reflexivity.
  - lia.
Defined.

(** C4 as stated fails: with one process and no command-line argument the
    driver leaves at line 92 and never calls [jacobi]. *)
Lemma single_process_usage_exit :
  outcome (world_of Sample.no_arguments Sample.ext0 1) 1 0 = inl (Exited EXIT_FAILURE)
  /\ ~ calls_jacobi (world_of Sample.no_arguments Sample.ext0 1) 1 0.
Proof.
  split; [reflexivity|].
  unfold calls_jacobi. vm_compute. discriminate.
Qed.

(** ** C5: input files of mismatched sizes *)




(** ** C6: the grid handed to the solver *)

(** C6. A process of a run with [p > 1] that passes the test of line 164
    creates, over [MPI_COMM_WORLD], the 2-dimensional non-periodic Cartesian
    grid of dimensions [q x q] with [q = sqrt(p)], which has [p] processes;
    every call of [mpi_jacobi] it makes receives that grid, and it makes one
    whenever it returns from [main]. *)
Theorem solver_receives_square_grid w p rank :
  1 < p < 2 ^ 31 ->
  checks_square w p rank ->
  p = int_sqrt p * int_sqrt p ->
  let q := int_sqrt p in
  let grid := Cart MPI_COMM_WORLD 2 [q; q] [0; 0] 0 in
  grid_size grid = Some p
  /\ In (EvCartCreate grid) (events w p rank)
  /\ (forall size A b x c,
         In (EvMpiJacobi size A b x c) (events w p rank) -> c = grid)
  /\ (outcome w p rank = inr 0 ->
      exists size A b x, In (EvMpiJacobi size A b x grid) (events w p rank)).
Proof.
  intros Hp Hchk Hsq q grid.
  assert (Hns : not_square p (int_sqrt p) = false).
  { rewrite not_square_spec by lia. apply negb_false_iff, Z.eqb_eq. assumption. }
  assert (Hgt : (p >? 1) = true) by (apply Z.gtb_lt; lia).
  split.
  { unfold grid, grid_size, q. cbn [fold_right]. rewrite Z.mul_1_r. congruence. }
  change grid with (grid_of p). clear grid.
  unfold checks_square in Hchk. unfold events, trace, outcome in *.
  destruct (Z.eq_dec rank 0) as [->|Hr].
  - root_cases w p; rewrite Hrun in *.
    + exfalso. cbn [snd map fst] in Hchk. destruct Hchk as [H|H]; [discriminate|].
      apply (in_input_events _ _ Hin) in H. discriminate.
    + rewrite continuation_root_parallel in * by lia. cbv zeta in *.
      rewrite Hns in *.
      destruct (vector_max_size <? CInt.to_size_t v); cbn [snd fst] in *.
      * split; [|split].
        -- rewrite map_cons, map_app. right. apply in_or_app. right.
           cbn [map fst]. do 3 right. left. reflexivity.
        -- intros size A b x c H. rewrite map_cons, map_app in H.
           destruct H as [H|H]; [discriminate|].
           apply in_app_or in H. destruct H as [H|H].
           ++ apply (in_input_events _ _ Hin) in H. discriminate.
           ++ cbn [map fst] in H. in_cases H.
        -- discriminate.
      * split; [|split].
        -- rewrite map_cons, map_app. right. apply in_or_app. right.
           cbn [map fst app]. do 3 right. left. reflexivity.
        -- intros size A b x c H. rewrite map_cons, map_app in H.
           destruct H as [H|H]; [discriminate|].
           apply in_app_or in H. destruct H as [H|H].
           ++ apply (in_input_events _ _ Hin) in H. discriminate.
           ++ unfold root_tail in H.
              destruct wo; cbn [map fst app Locals.write_output Locals.set_x] in H;
                in_cases H; injection H as _ _ _ _ <-; reflexivity.
        -- intros _. eexists _, _, _, _.
           rewrite map_cons, map_app. right. apply in_or_app. right.
           cbn [map fst app]. do 7 right. left. reflexivity.
  - rewrite run_nonroot in * by assumption. cbv zeta in *. rewrite Hgt in *.
    destruct (bcast_root w) as [v|]; [rewrite Hns in *|]; cbn [snd fst map] in *.
    + split; [|split].
      * do 3 right. left. reflexivity.
      * intros size A b x c H. in_cases H.
        injection H as _ _ _ _ <-. reflexivity.
      * intros _. eexists _, _, _, _. do 7 right. left. reflexivity.
    + exfalso. in_cases Hchk.
Qed.

Lemma solver_receives_square_grid_witness :
  In (EvCartCreate (Cart MPI_COMM_WORLD 2 [2; 2] [0; 0] 0))
     (events (world_of Sample.random2 Sample.ext0 4) 4 3).
Proof.
  refine (proj1 (proj2 (solver_receives_square_grid
                          (world_of Sample.random2 Sample.ext0 4) 4 3 _ _ _))).
  - lia.
  - unfold checks_square. vm_compute. auto.
  - reflexivity.
Defined.

(** ** C7: the perfect-square test *)

(** A process that performs the test of line 164 ends in the configuration
    error exactly when the test, a function of [p] alone, fails. *)
Lemma check_decides w p rank :
  checks_square w p rank ->
  raises_configuration_error w p rank <-> not_square p (int_sqrt p) = true.
Proof.
  unfold checks_square, raises_configuration_error, events, trace, outcome.
  intros Hchk.
  destruct (Z.eq_dec rank 0) as [->|Hr].
  - root_cases w p; rewrite Hrun in *.
    + exfalso. cbn [snd map fst] in Hchk. destruct Hchk as [H|H]; [discriminate|].
      apply (in_input_events _ _ Hin) in H. discriminate.
    + destruct (Z_lt_le_dec 1 p) as [Hp|Hp].
      * rewrite continuation_root_parallel in * by lia. cbv zeta in *.
        destruct (not_square p (int_sqrt p)); [split; reflexivity|].
        destruct (vector_max_size <? CInt.to_size_t v); cbn [fst];
          split; discriminate.
      * exfalso. rewrite continuation_root_sequential in Hchk by lia.
        cbv zeta in Hchk.
        destruct (vector_max_size <? CInt.to_size_t v); cbn [snd] in Hchk;
          rewrite map_cons, map_app in Hchk;
          (destruct Hchk as [H|H]; [discriminate|]);
          apply in_app_or in H; destruct H as [H|H];
          try (apply (in_input_events _ _ Hin) in H; discriminate).
        -- cbn [map fst] in H. in_cases H.
        -- unfold root_tail in H.
           destruct wo; cbn [map fst app Locals.write_output Locals.set_x] in H;
             in_cases H.
  - rewrite run_nonroot in * by assumption. cbv zeta in *.
    destruct (p >? 1).
    + destruct (bcast_root w) as [v|].
      * destruct (not_square p (int_sqrt p)); cbn [fst]; split;
          try reflexivity; discriminate.
      * exfalso. cbn [snd map fst] in Hchk. in_cases Hchk.
    + exfalso. cbn [snd map fst] in Hchk. in_cases Hchk.
Qed.

(** In a run, a process ends in the configuration error exactly when there
    are several processes, the root has accepted its input and the test on
    [p] fails: nothing here depends on the rank. *)
Lemma raises_iff args e p rank :
  raises_configuration_error (world_of args e p) p rank
  <-> (1 < p /\ input_accepted args e = true
       /\ not_square p (int_sqrt p) = true).
Proof.
  unfold raises_configuration_error, outcome.
  destruct (Z.eq_dec rank 0) as [->|Hr].
  - root_cases (world_of args e p) p; rewrite Hrun.
    + assert (Hacc : input_accepted args e = false).
      { unfold input_accepted. rewrite <- (read_input_world_of args e p), Hread.
        reflexivity. }
      cbn [fst]. split.
      * intros H. injection H as ->. destruct Hst; discriminate.
      * intros (_ & H & _). congruence.
    + assert (Hacc : input_accepted args e = true).
      { unfold input_accepted. rewrite <- (read_input_world_of args e p), Hread.
        reflexivity. }
      destruct (Z_lt_le_dec 1 p) as [Hp|Hp].
      * rewrite continuation_root_parallel by lia. cbv zeta.
        destruct (not_square p (int_sqrt p)).
        -- cbn [fst]. split; auto.
        -- destruct (vector_max_size <? CInt.to_size_t v); cbn [fst]; split;
             try discriminate; intros (_ & _ & H); discriminate.
      * rewrite continuation_root_sequential by lia. cbv zeta.
        destruct (vector_max_size <? CInt.to_size_t v); cbn [fst]; split;
          try discriminate; intros (H & _); lia.
  - rewrite run_nonroot by assumption. cbv zeta.
    cbn [bcast_root world_of]. unfold root_contribution.
    destruct (Z.gtb_spec p 1) as [Hp|Hp]; cbn [andb].
    + pose proof (root_input_spec args e) as H.
      destruct (input_accepted args e) eqn:Hacc.
      * destruct (root_input args e) as [[[st|[]] s] t];
          destruct H as (_ & _ & Hloc & H).
        -- destruct H as (H & _). discriminate.
        -- destruct H as (_ & v & Hn & _). rewrite Hloc, Hn.
           destruct (not_square p (int_sqrt p)); cbn [fst]; split; auto;
             try discriminate; intros (_ & _ & H'); discriminate.
      * cbn [fst]. split; [discriminate|]. intros (_ & H' & _). discriminate.
    + cbn [fst]. split; [discriminate|]. intros (H' & _). lia.
Qed.

(** C7. The outcome of the perfect-square test depends on the communicator
    size [p] alone: two processes that perform it for the same [p], whatever
    their ranks, command lines and collaborators, both end in the
    configuration error or both pass; and in every run either every process
    ends in the configuration error or none does. *)
Theorem configuration_check_is_uniform :
  (forall w1 w2 p r1 r2,
      checks_square w1 p r1 -> checks_square w2 p r2 ->
      (raises_configuration_error w1 p r1 <-> raises_configuration_error w2 p r2))
  /\ (forall args e p r1 r2,
         raises_configuration_error (world_of args e p) p r1
         <-> raises_configuration_error (world_of args e p) p r2)
  /\ (forall args e p,
         Forall (fun o => o = inl (Thrown msg_perfect_square)) (outcomes args e p)
         \/ Forall (fun o => o <> inl (Thrown msg_perfect_square)) (outcomes args e p)).
Proof.
  split; [|split].
  - intros w1 w2 p r1 r2 H1 H2.
    rewrite (check_decides w1 p r1 H1), (check_decides w2 p r2 H2). reflexivity.
  - intros args e p r1 r2. rewrite !raises_iff. reflexivity.
  - intros args e p. unfold outcomes, run. rewrite map_map.
    destruct (Z_lt_le_dec 1 p) as [Hp|Hp];
      [destruct (input_accepted args e) eqn:Hacc;
       [destruct (not_square p (int_sqrt p)) eqn:Hns|]|].
    1: left. 2-4: right.
    all: apply Forall_map, Forall_forall; intros rank _;
      pose proof (raises_iff args e p rank) as H;
      unfold raises_configuration_error, outcome in H.
    + apply H. auto.
    + intros H'. apply H in H'. destruct H' as (_ & _ & H'). congruence.
    + intros H'. apply H in H'. destruct H' as (_ & H' & _). congruence.
    + intros H'. apply H in H'. lia.
Qed.

Lemma configuration_check_is_uniform_witness :
  raises_configuration_error (world_of Sample.random2 Sample.ext0 2) 2 0
  <-> raises_configuration_error (world_of Sample.from_files Sample.ext0 2) 2 1.
Proof.
  refine (proj1 configuration_check_is_uniform
                (world_of Sample.random2 Sample.ext0 2)
                (world_of Sample.from_files Sample.ext0 2) 2 0 1 _ _).
  - unfold checks_square. vm_compute. auto 10.
  - unfold checks_square. vm_compute. auto 10.
Defined.

(** ** C8: the output vector *)








(** ** C9: the broadcast of [n] *)

(** The root's trace in a parallel run, cut at the broadcast. *)
Lemma root_trace_around_bcast w p A1 b1 wo name v t1 :
  1 < p ->
  Forall (fun en => is_input_event (fst en) = true /\ Locals.x (snd en) = []) t1 ->
  let s1 := Locals.mk A1 b1 [] wo name (Some v) in
  match continuation w p 0 s1 with
  | (r, s2, t2) =>
      let t := (EvMPI_Init, Locals.init) :: t1 ++ t2 in
      before_first is_bcast t = (EvMPI_Init, Locals.init) :: t1 ++ [(EvClock, s1)]
      /\ In (EvBcast 0, s1) t
      /\ (forall s, In (EvBcast 0, s) t -> s = s1)
      /\ Forall (fun en => Locals.n (snd en) = Some v) (after_first is_bcast t)
      /\ Locals.n s2 = Some v
  end.
Proof.
  intros Hp Hin s1. subst s1.
  pose proof (input_entries_not is_bcast t1 input_not_bcast Hin) as Hnb.
  rewrite continuation_root_parallel by lia. cbv zeta.
  assert (Hbc : forall s t2,
             In (EvBcast 0, s) ((EvMPI_Init, Locals.init) :: t1 ++ t2) ->
             In (EvBcast 0, s) t2).
  { intros s t2 H. destruct H as [H|H]; [discriminate|].
    apply in_app_or in H. destruct H as [H|H]; [|exact H].
    apply (in_input_entries _ _ Hin) in H. cbn [fst] in H.
    destruct H; discriminate. }
  destruct (not_square p (int_sqrt p));
    [|destruct (vector_max_size <? CInt.to_size_t v)];
    cbv zeta; cbn [before_first after_first fst is_bcast];
    rewrite before_first_app, after_first_app by exact Hnb;
    cbn [before_first after_first fst is_bcast app];
    (split; [reflexivity|]);
    (split; [right; apply in_or_app; right; right; left; reflexivity|]);
    (split; [intros s H; apply Hbc in H|]).
  - in_cases H. injection H as <-. reflexivity.
  - split; [listed | reflexivity].
  - in_cases H. injection H as <-. reflexivity.
  - split; [listed | reflexivity].
  - unfold root_tail in H.
    destruct wo; cbn [app Locals.write_output Locals.set_x] in H; in_cases H;
      injection H as <-; reflexivity.
  - unfold root_tail.
    destruct wo; cbn [app Locals.write_output Locals.set_x];
      (split; [listed | reflexivity]).
Qed.

(** C9. In a run with [p > 1]: no process creates the grid before it has
    entered the broadcast of [n]; on entering the broadcast [n] holds a value
    on the root and is still unwritten on every other process, where it has
    been unwritten since the start; from the broadcast on, every process
    holds in [n] the value the root held; and once the root has accepted its
    input every process enters the broadcast. *)
Theorem size_is_broadcast_before_grid args e p rank :
  1 < p ->
  let w := world_of args e p in
  let t := trace w p rank in
  Forall (fun en => is_cart_create (fst en) = false
                    /\ (rank <> 0 -> Locals.n (snd en) = None))
         (before_first is_bcast t)
  /\ (forall s, In (EvBcast 0, s) t ->
                if rank =? 0
                then Locals.n s = Locals.n (root_locals args e)
                     /\ exists v, Locals.n s = Some v
                else Locals.n s = None)
  /\ (forall en, In en (after_first is_bcast t) ->
                 Locals.n (snd en) = Locals.n (root_locals args e)
                 /\ exists v, Locals.n (snd en) = Some v)
  /\ (input_accepted args e = true ->
      In (EvBcast 0) (events w p rank)
      /\ exists v, Locals.n (root_locals args e) = Some v
                   /\ Locals.n (final w p rank) = Some v).
Proof.
  intros Hp w t. unfold t, events, trace, final.
  assert (Hgt : (p >? 1) = true) by (apply Z.gtb_lt; lia).
  destruct (Z.eq_dec rank 0) as [->|Hr].
  - change (0 =? 0) with true. cbv iota.
    root_cases w p.
    + rewrite Hrun. cbn [snd fst].
      pose proof (input_entries_not is_bcast t0 input_not_bcast Hin) as Hnb.
      cbn [before_first after_first fst is_bcast].
      rewrite before_first_none, after_first_none by exact Hnb.
      split.
      { apply Forall_cons; [split; [reflexivity | intros H; contradiction]|].
        eapply Forall_impl; [|exact Hin].
        intros [ev s'] [Hi _]. cbn [fst] in *.
        split; [apply input_not_cart_create; exact Hi | intros H; contradiction]. }
      split.
      { intros s0 H. exfalso. destruct H as [H|H]; [discriminate|].
        apply (in_input_entries _ _ Hin) in H. cbn [fst] in H.
        destruct H; discriminate. }
      split; [intros en []|].
      intros Hacc. exfalso.
      exact (accepted_not_rejected args e p _ _ _ Hacc Hread).
    + assert (Hloc : root_locals args e = Locals.mk A1 b1 [] wo name (Some v)).
      { unfold root_locals. rewrite <- (read_input_world_of args e p).
        fold w. rewrite Hread. reflexivity. }
      rewrite Hloc. cbn [Locals.n].
      pose proof (root_trace_around_bcast w p A1 b1 wo name v t0 Hp Hin) as H.
      cbv zeta in H. rewrite Hrun.
      destruct (continuation w p 0 (Locals.mk A1 b1 [] wo name (Some v)))
        as [[r s2] t2].
      cbn [snd fst]. destruct H as (Hbefore & Hbc & Honly & Hafter & Hfinal).
      rewrite Hbefore. split.
      { apply Forall_cons; [split; [reflexivity | intros H; contradiction]|].
        apply Forall_app. split.
        - eapply Forall_impl; [|exact Hin].
          intros [ev s'] [Hi _]. cbn [fst] in *.
          split; [apply input_not_cart_create; exact Hi
                 | intros H; contradiction].
        - apply Forall_cons; [|apply Forall_nil].
          split; [reflexivity | intros H; contradiction]. }
      split.
      { intros s0 H. apply Honly in H. subst s0. cbn [Locals.n].
        split; [reflexivity | exists v; reflexivity]. }
      split.
      { intros en H. rewrite Forall_forall in Hafter.
        rewrite (Hafter _ H). split; [reflexivity | exists v; reflexivity]. }
      intros _. split.
      { apply (in_map fst) in Hbc. exact Hbc. }
      exists v. split; [reflexivity | exact Hfinal].
  - apply Z.eqb_neq in Hr as Hr'. rewrite Hr'. cbv iota.
    rewrite run_nonroot by assumption. cbv zeta. rewrite Hgt.
    cbn [bcast_root w world_of].
    pose proof (root_input_spec args e) as H.
    unfold root_contribution. rewrite Hgt. cbn [andb].
    destruct (input_accepted args e) eqn:Hacc.
    + destruct (root_input args e) as [[[st|[]] s] t1];
        destruct H as (_ & _ & Hloc & H).
      { destruct H as (H & _). discriminate. }
      destruct H as (_ & v & Hn & _). rewrite Hloc, Hn.
      destruct (not_square p (int_sqrt p));
        cbn [snd fst before_first after_first is_bcast map
             Locals.n Locals.set_n Locals.init];
        (split; [listed|]);
        (split; [intros s0 H0; in_cases H0; injection H0 as <-; reflexivity|]);
        (split; [intros en H0; in_cases H0; subst en;
                 (split; [reflexivity | exists v; reflexivity])|]);
        intros _; (split; [right; left; reflexivity|]);
        exists v; split; reflexivity.
    + cbn [snd fst before_first after_first is_bcast map
           Locals.n Locals.set_n Locals.init].
      split; [listed|].
      split; [intros s0 H0; in_cases H0; injection H0 as <-; reflexivity|].
      split; [intros en []|]. discriminate.
Qed.

Lemma size_is_broadcast_before_grid_witness :
  In (EvBcast 0) (events (world_of Sample.random2 Sample.ext0 4) 4 3)
  /\ exists v, Locals.n (root_locals Sample.random2 Sample.ext0) = Some v
               /\ Locals.n (final (world_of Sample.random2 Sample.ext0 4) 4 3) = Some v.
Proof.
  refine (proj2 (proj2 (proj2 (size_is_broadcast_before_grid
                                 Sample.random2 Sample.ext0 4 3 _))) _).
  - lia.
  - reflexivity.
Defined.

(** ** C10: a size that is not positive *)

(** C10. In random-generation mode (first argument [-n]), when the parsed
    size does not satisfy [n > 0] (in particular when the argument has no
    digits, which [atoi] parses to 0), the root prints the usage message and
    leaves with [exit(EXIT_FAILURE)]; no process of the run generates input
    or calls a solver. *)
Theorem nonpositive_size_is_usage_error e p prog s rest :
  atoi s <= 0 \/ non_numeric s = true ->
  let w := world_of (prog :: "-n"%string :: s :: rest) e p in
  outcome w p 0 = inl (Exited EXIT_FAILURE)
  /\ events w p 0 = [EvMPI_Init; EvPrintUsage]
  /\ forall rank,
       Forall (fun ev => is_generation ev = false /\ is_solver_call ev = false)
              (events w p rank).
Proof.
  intros Hs w.
  assert (Hle : atoi s <= 0).
  { destruct Hs as [H|H]; [exact H|]. rewrite (atoi_non_numeric s H). lia. }
  pose proof (root_input_bad_size e prog s rest Hle) as Hin.
  pose proof (root_rejected _ e p _ _ _ Hin) as Hrun.
  fold w in Hrun.
  assert (Hev : events w p 0 = [EvMPI_Init; EvPrintUsage]).
  { unfold events, trace. rewrite Hrun. reflexivity. }
  split; [unfold outcome; rewrite Hrun; reflexivity|].
  split; [exact Hev|].
  intros rank. destruct (Z.eq_dec rank 0) as [->|Hr].
  - rewrite Hev. repeat (constructor; [split; reflexivity|]). constructor.
  - assert (Hacc : input_accepted (prog :: "-n"%string :: s :: rest) e = false).
    { unfold input_accepted. rewrite Hin. reflexivity. }
    unfold events, trace, w.
    rewrite nonroot_without_root by assumption.
    destruct (p >? 1); cbn [snd map fst];
      repeat (constructor; [split; reflexivity|]); constructor.
Qed.

Lemma nonpositive_size_is_usage_error_witness :
  (atoi "abc" <= 0 \/ non_numeric "abc" = true)
  /\ outcome (world_of Sample.bad_size Sample.ext0 4) 4 0 = inl (Exited EXIT_FAILURE)
  /\ events (world_of Sample.bad_size Sample.ext0 4) 4 0 = [EvMPI_Init; EvPrintUsage].
Proof.
  assert (H : atoi "abc" <= 0 \/ non_numeric "abc" = true)
    by (right; reflexivity).
  split; [exact H|].
  destruct (nonpositive_size_is_usage_error Sample.ext0 4 "./jacobi" "abc" [] H)
    as (Ho & He & _).
  split; [exact Ho | exact He].
Defined.

(** * Further properties of the driver *)

(** ** Command lines the driver rejects *)

(** Argument handling ends in [exit(EXIT_FAILURE)] exactly on the command
    lines of [usage_error], and then it has only printed the usage. *)
Lemma read_input_usage w s0 :
  match read_input w 0 s0 with
  | (r, s, t) =>
      (r = inl (Exited EXIT_FAILURE) <-> usage_error w = true)
      /\ (usage_error w = true -> map fst t = [EvPrintUsage])
  end.
Proof.
  destruct s0 as [A0 b0 x0 wo0 on0 n0].
  unfold usage_error. exec. change (0 =? 0) with true. cbv iota.
  repeat branch; cbn [negb orb andb map fst];
    (split; [split|]); intros H; try reflexivity; try discriminate H.
Qed.

(** After argument handling the root never leaves through [exit]. *)
Lemma continuation_never_exits w p A1 b1 wo name v status :
  fst (fst (continuation w p 0 (Locals.mk A1 b1 [] wo name (Some v))))
  <> inl (Exited status).
Proof.
  destruct (Z_lt_le_dec 1 p) as [Hp|Hp];
    [rewrite continuation_root_parallel by lia
    |rewrite continuation_root_sequential by lia];
    cbv zeta;
    try destruct (not_square p (int_sqrt p));
    try destruct (vector_max_size <? CInt.to_size_t v);
    cbn [fst]; discriminate.
Qed.

(** X3. The root prints the usage and leaves through [exit(EXIT_FAILURE)]
    exactly when it has fewer than three arguments, or [-n] with a size that
    is not positive or with five arguments of which the fourth is not [-d],
    or no [-n] and a number of arguments other than four.  It has then done
    nothing but print the usage, and no process of the run generates input,
    reads a file or calls a solver. *)
Theorem usage_exit_iff args e p :
  let w := world_of args e p in
  (outcome w p 0 = inl (Exited EXIT_FAILURE) <-> usage_error w = true)
  /\ (usage_error w = true ->
      events w p 0 = [EvMPI_Init; EvPrintUsage]
      /\ forall rank,
           Forall (fun ev => is_generation ev = false
                             /\ is_file_read ev = false
                             /\ is_solver_call ev = false)
                  (events w p rank)).
Proof.
  intros w.
  pose proof (read_input_usage w Locals.init) as Hu.
  assert (Hroot : usage_error w = true ->
                  run_main w p 0
                  = (inl (Exited EXIT_FAILURE),
                     snd (fst (read_input w 0 Locals.init)),
                     (EvMPI_Init, Locals.init) :: snd (read_input w 0 Locals.init))
                    /\ map fst (snd (read_input w 0 Locals.init)) = [EvPrintUsage]).
  { intros H. rewrite run_main_split.
    destruct (read_input w 0 Locals.init) as [[r s] t].
    destruct Hu as (Hiff & Hev). apply Hiff in H as ->.
    split; [reflexivity | exact (Hev (proj1 Hiff eq_refl))]. }
  split; [split|].
  - intros Hout. unfold outcome in Hout.
    root_cases w p; rewrite Hread in Hu; destruct Hu as (Hiff & _).
    + apply Hiff. rewrite Hrun in Hout. cbn [fst] in Hout.
      injection Hout as ->. reflexivity.
    + exfalso. rewrite Hrun in Hout.
      pose proof (continuation_never_exits w p A1 b1 wo name v EXIT_FAILURE) as Hne.
      destruct (continuation w p 0 (Locals.mk A1 b1 [] wo name (Some v)))
        as [[r s2] t2].
      exact (Hne Hout).
  - intros H. destruct (Hroot H) as (Hrun & _).
    unfold outcome. rewrite Hrun. reflexivity.
  - intros H. destruct (Hroot H) as (Hrun & Hev).
    assert (Hevents : events w p 0 = [EvMPI_Init; EvPrintUsage]).
    { unfold events, trace. rewrite Hrun. cbn [snd map fst]. rewrite Hev.
      reflexivity. }
    split; [exact Hevents|].
    intros rank. destruct (Z.eq_dec rank 0) as [->|Hr].
    + rewrite Hevents. listed.
    + assert (Hacc : input_accepted args e = false).
      { unfold input_accepted. rewrite <- (read_input_world_of args e p).
        fold w. destruct (read_input w 0 Locals.init) as [[r s] t].
        destruct Hu as (Hiff & _). apply Hiff in H as ->. reflexivity. }
      unfold events, trace, w. rewrite nonroot_without_root by assumption.
      destruct (p >? 1); cbn [snd map fst]; listed.
Qed.

Lemma usage_exit_iff_witness :
  events (world_of Sample.bad_option Sample.ext0 4) 4 0
  = [EvMPI_Init; EvPrintUsage].
Proof.
  refine (proj1 (proj2 (usage_exit_iff Sample.bad_option Sample.ext0 4) _)).
  reflexivity.
Defined.

(** ** The run of the root when it returns *)

Lemma filter_none {T} (P : T -> bool) (l : list T) :
  Forall (fun a => P a = false) l -> filter P l = [].
Proof.
  induction 1 as [|a l Ha _ IH]; [reflexivity|].
  cbn [filter]. rewrite Ha. exact IH.
Qed.

(** The events of the solve phase on the root (lines 158-197), for the size
    [v] and the inputs [A1], [b1]. *)
Lemma root_success_shape w p r :
  outcome w p 0 = inr r ->
  exists A1 b1 wo name v t1 xs',
    read_input w 0 Locals.init
    = (inr tt, Locals.mk A1 b1 [] wo name (Some v), t1)
    /\ 0 <= v < 2 ^ 31
    /\ Forall (fun en => is_input_event (fst en) = true
                         /\ Locals.x (snd en) = []) t1
    /\ r = 0
    /\ final w p 0 = Locals.mk A1 b1 xs' wo name (Some v)
    /\ Z.of_nat (List.length xs') = v
    /\ (p <= 1 \/ not_square p (int_sqrt p) = false)
    /\ events w p 0
       = EvMPI_Init :: map fst t1
         ++ (let xs := repeat 0%float (Z.to_nat v) in
             (if p >? 1
              then [EvClock; EvBcast 0; EvSquareCheck p (int_sqrt p);
                    EvCartCreate (grid_of p)]
              else [EvClock; EvWarnSequential])
             ++ [EvSubscript BufA 0 (List.length A1);
                 EvSubscript BufB 0 (List.length b1);
                 EvSubscript BufX 0 (List.length xs);
                 if p >? 1 then EvMpiJacobi v A1 b1 xs (grid_of p)
                 else EvJacobi v A1 b1 xs])
         ++ [EvClock; EvPrintTime]
         ++ (if wo then [EvWriteBinaryFile name xs'] else [])
         ++ [EvMPI_Finalize].
Proof.
  unfold outcome, final, events, trace. intros Hout.
  root_cases w p; rewrite Hrun in *; [discriminate Hout|].
  exists A1, b1, wo, name, v, t.
  assert (Hx : 0 <= v ->
               repeat 0%float (Z.to_nat (CInt.to_size_t v))
               = repeat 0%float (Z.to_nat v)).
  { intros H0. rewrite to_size_t_small by (unfold CInt.in_int in Hv; lia).
    reflexivity. }
  destruct (Z_lt_le_dec 1 p) as [Hp|Hp].
  - assert (Hgt : (p >? 1) = true) by (apply Z.gtb_lt; lia).
    rewrite continuation_root_parallel in * by lia. cbv zeta in *.
    destruct (not_square p (int_sqrt p)) eqn:Hns; [discriminate Hout|].
    destruct (vector_max_size <? CInt.to_size_t v) eqn:Hfit; [discriminate Hout|].
    pose proof (proj1 (size_fits v Hv) Hfit) as H0.
    cbn [fst snd] in *. injection Hout as <-.
    rewrite (Hx H0), Hgt.
    eexists. split; [exact Hread|].
    split; [unfold CInt.in_int in Hv; lia|].
    split; [exact Hin|]. split; [reflexivity|].
    split; [reflexivity|].
    split; [rewrite store_length, repeat_length; lia|].
    split; [right; reflexivity|].
    unfold root_tail. rewrite map_cons, map_app.
    destruct wo; reflexivity.
  - assert (Hgt : (p >? 1) = false)
      by (rewrite Z.gtb_ltb; apply Z.ltb_ge; lia).
    rewrite continuation_root_sequential in * by lia. cbv zeta in *.
    destruct (vector_max_size <? CInt.to_size_t v) eqn:Hfit; [discriminate Hout|].
    pose proof (proj1 (size_fits v Hv) Hfit) as H0.
    cbn [fst snd] in *. injection Hout as <-.
    rewrite (Hx H0), Hgt.
    eexists. split; [exact Hread|].
    split; [unfold CInt.in_int in Hv; lia|].
    split; [exact Hin|]. split; [reflexivity|].
    split; [reflexivity|].
    split; [rewrite store_length, repeat_length; lia|].
    split; [left; exact Hp|].
    unfold root_tail. rewrite map_cons, map_app.
    destruct wo; reflexivity.
Qed.

Lemma root_locals_of_read args e p r s t :
  read_input (world_of args e p) 0 Locals.init = (r, s, t) ->
  root_locals args e = s
  /\ input_accepted args e = match r with inr _ => true | inl _ => false end.
Proof.
  intros H. rewrite read_input_world_of in H.
  unfold root_locals, input_accepted. rewrite H.
  split; [reflexivity | destruct r; reflexivity].
Qed.

(** X4. The root returns from [main], with 0, exactly when its argument
    handling completes, the size it ends with is not negative and either
    there is a single process or the process count passes the test of line
    164.  (The size can only be negative through the conversion of
    [b.size()] to [int]; the allocation of [x] then throws.) *)
Theorem root_returns_iff args e p :
  let w := world_of args e p in
  outcome w p 0 = inr 0
  <-> (input_accepted args e = true
       /\ (exists v, Locals.n (root_locals args e) = Some v /\ 0 <= v)
       /\ (p <= 1 \/ not_square p (int_sqrt p) = false)).
Proof.
  intros w. split.
  - intros Hout.
    destruct (root_success_shape w p 0 Hout)
      as (A1 & b1 & wo & name & v & t1 & xs' & Hread & Hv & _ & _ & _ & _ & Hp & _).
    destruct (root_locals_of_read args e p _ _ _ Hread) as (Hloc & Hacc).
    split; [exact Hacc|]. split; [|exact Hp].
    exists v. rewrite Hloc. split; [reflexivity | lia].
  - intros (Hacc & (v & Hn & Hv0) & Hp). unfold outcome.
    root_cases w p.
    + exfalso. exact (accepted_not_rejected args e p _ _ _ Hacc Hread).
    + destruct (root_locals_of_read args e p _ _ _ Hread) as (Hloc & _).
      rewrite Hloc in Hn. cbn [Locals.n] in Hn. injection Hn as ->.
      pose proof (proj2 (size_fits v Hv) Hv0) as Hfit.
      rewrite Hrun.
      destruct (Z_lt_le_dec 1 p) as [Hgt|Hle].
      * destruct Hp as [Hp|Hp]; [lia|].
        rewrite continuation_root_parallel by lia. cbv zeta.
        rewrite Hp, Hfit. reflexivity.
      * rewrite continuation_root_sequential by lia. cbv zeta.
        rewrite Hfit. reflexivity.
Qed.

Lemma root_returns_iff_witness :
  outcome (world_of Sample.from_files Sample.ext0 4) 4 0 = inr 0.
Proof.
  refine (proj2 (root_returns_iff Sample.from_files Sample.ext0 4) _).
  split; [reflexivity|]. split.
  - exists 2. split; [reflexivity | lia].
  - right. reflexivity.
Defined.

(** X5. When the root returns from [main], the vector [x] it ends with has
    exactly [n] elements whatever the solver did with the storage, and the
    root has written a file exactly when it took its input from files: one
    file, named by the fourth argument as stored in [outfile_name], holding
    that [x]. *)
Theorem result_is_written_once args e p r :
  let w := world_of args e p in
  outcome w p 0 = inr r ->
  let s := root_locals args e in
  (exists n, Locals.n s = Some n
             /\ Z.of_nat (List.length (Locals.x (final w p 0))) = n)
  /\ filter is_file_write (events w p 0)
     = if Locals.write_output s
       then [EvWriteBinaryFile (Locals.outfile_name s) (Locals.x (final w p 0))]
       else [].
Proof.
  intros w Hout s.
  destruct (root_success_shape w p r Hout)
    as (A1 & b1 & wo & name & v & t1 & xs' & Hread & Hv & Hin & _ & Hfin & Hlen
        & _ & Hev).
  destruct (root_locals_of_read args e p _ _ _ Hread) as (Hloc & _).
  unfold s. rewrite Hloc, Hfin. cbn [Locals.n Locals.x Locals.write_output
                                     Locals.outfile_name].
  split; [exists v; split; [reflexivity | exact Hlen]|].
  rewrite Hev. cbn [filter is_file_write]. rewrite !filter_app.
  rewrite (filter_none is_file_write (map fst t1)).
  2: { apply input_events_forall; [|exact Hin].
       intros ev H. destruct ev; try discriminate; reflexivity. }
  cbv zeta. destruct (p >? 1), wo; reflexivity.
Qed.

Lemma result_is_written_once_witness :
  filter is_file_write (events (world_of Sample.from_files Sample.ext0 1) 1 0)
  = [EvWriteBinaryFile "x.bin" [1; 1]%float].
Proof.
  refine (proj2 (result_is_written_once Sample.from_files Sample.ext0 1 0 _)).
  reflexivity.
Defined.

(** ** The two input modes *)

(** Argument handling on [-n] with a command line that is not rejected. *)
Lemma read_input_random w :
  usage_error w = false ->
  String.eqb (arg w 1) "-n" = true ->
  let n := atoi (arg w 2) in
  let d := difficulty_of w in
  0 < n
  /\ exists t,
       read_input w 0 Locals.init
       = (inr tt,
          Locals.mk (diag_dom_rand (ext w) n d) (randn (ext w) n) []
                    false EmptyString (Some n), t)
       /\ map fst t = [EvDiagDomRand n d; EvRandn n].
Proof.
  unfold usage_error, difficulty_of. intros Hu Hn. rewrite Hn in Hu.
  apply orb_false_iff in Hu. destruct Hu as (Hargc & Hu).
  apply orb_false_iff in Hu. destruct Hu as (Hpos & Hd).
  apply negb_false_iff in Hpos.
  cbv zeta. split; [apply Z.gtb_lt; exact Hpos|].
  exec. change (0 =? 0) with true. cbv iota.
  rewrite Hargc, Hn, Hpos. cbn [negb]. cbv iota.
  destruct (argc w =? 5).
  - cbn [andb] in Hd. rewrite Hd. cbv iota beta.
    eexists. split; reflexivity.
  - cbv iota beta. eexists. split; reflexivity.
Qed.

(** X6. Random-generation mode on a command line that is not rejected: the
    size [n = atoi(argv[2])] is positive, the root calls [diag_dom_rand(n, d)]
    and then [randn(n)], once each, and keeps the results in [A] and [b];
    [d] is 0.5 unless there are exactly five arguments, and then it is what
    [difficulty], initialised to 0.5, holds after [iss >> difficulty] on the
    fifth; [write_output] stays false, and no process of the run, for any
    process count, reads or writes a file. *)
Theorem random_mode_generates args e p :
  let w := world_of args e p in
  usage_error w = false ->
  String.eqb (arg w 1) "-n" = true ->
  let n := atoi (arg w 2) in
  let d := difficulty_of w in
  0 < n
  /\ (argc w <> 5 -> d = 0.5%float)
  /\ (argc w = 5 -> d = extract_double e (arg w 4) 0.5%float)
  /\ root_locals args e
     = Locals.mk (diag_dom_rand e n d) (randn e n) [] false EmptyString (Some n)
  /\ filter is_generation (events w p 0) = [EvDiagDomRand n d; EvRandn n]
  /\ forall rank,
       Forall (fun ev => is_file_read ev = false /\ is_file_write ev = false)
              (events w p rank).
Proof.
  intros w Hu Hn n d.
  destruct (read_input_random w Hu Hn) as (Hpos & t & Hread & Ht).
  fold n d in Hpos, Hread, Ht.
  destruct (root_locals_of_read args e p _ _ _ Hread) as (Hloc & Hacc).
  split; [exact Hpos|].
  split.
  { intros H. unfold d, difficulty_of. apply Z.eqb_neq in H. rewrite H.
    reflexivity. }
  split.
  { intros H. unfold d, difficulty_of. rewrite H. reflexivity. }
  split; [exact Hloc|].
  assert (Hrun : run_main w p 0
                 = match continuation w p 0
                           (Locals.mk (diag_dom_rand e n d) (randn e n) []
                                      false EmptyString (Some n)) with
                   | (r, s2, t2) => (r, s2, (EvMPI_Init, Locals.init) :: t ++ t2)
                   end).
  { rewrite run_main_split, Hread. reflexivity. }
  assert (Hroot : filter is_generation (events w p 0)
                  = [EvDiagDomRand n d; EvRandn n]
                  /\ Forall (fun ev => is_file_read ev = false
                                       /\ is_file_write ev = false)
                            (events w p 0)).
  { unfold events, trace. rewrite Hrun.
    destruct (Z_lt_le_dec 1 p) as [Hp|Hp];
      [rewrite continuation_root_parallel by lia
      |rewrite continuation_root_sequential by lia];
      cbv zeta;
      try destruct (not_square p (int_sqrt p));
      try destruct (vector_max_size <? CInt.to_size_t n);
      cbn [snd]; unfold root_tail;
      cbn [Locals.write_output Locals.set_x app];
      rewrite map_cons, map_app, Ht;
      (split; [reflexivity | cbn [map fst app]; listed]). }
  split; [exact (proj1 Hroot)|].
  intros rank. destruct (Z.eq_dec rank 0) as [->|Hr]; [exact (proj2 Hroot)|].
  unfold events, trace. rewrite run_nonroot by assumption. cbv zeta.
  destruct (p >? 1);
    [destruct (bcast_root w) as [v|];
     [destruct (not_square p (int_sqrt p))|]|];
    cbn [snd map fst]; listed.
Qed.

Lemma random_mode_generates_witness :
  filter is_generation (events (world_of Sample.trailing_option Sample.ext0 4) 4 0)
  = [EvDiagDomRand 2 0.5%float; EvRandn 2].
Proof.
  refine (proj1 (proj2 (proj2 (proj2 (proj2
            (random_mode_generates Sample.trailing_option Sample.ext0 4 _ _)))))).
  - reflexivity.
  - reflexivity.
Defined.

(** Argument handling on files, on a command line that is not rejected and
    with a [b] whose size fits an [int]. *)
Lemma read_input_files w :
  usage_error w = false ->
  String.eqb (arg w 1) "-n" = false ->
  let A := read_binary_file (ext w) (arg w 1) in
  let b := read_binary_file (ext w) (arg w 2) in
  let n := Z.of_nat (List.length b) in
  CInt.wrap n = n ->
  exists r s t,
    read_input w 0 Locals.init = (r, s, t)
    /\ map fst t = [EvReadBinaryFile (arg w 1); EvReadBinaryFile (arg w 2)]
    /\ s = Locals.mk A b [] true (arg w 3) (Some n)
    /\ r = if Z.of_nat (List.length A) =? n * n then inr tt
           else inl (Thrown msg_dimensions).
Proof.
  destruct w as [args0 e0 root0]. cbn [ext].
  intros Hu Hn Hwrap. unfold usage_error in Hu. rewrite Hn in Hu.
  apply orb_false_iff in Hu. destruct Hu as (Hargc & H4).
  apply negb_false_iff in H4.
  exec. change (0 =? 0) with true. cbv iota.
  rewrite Hargc, Hn, H4. cbv iota beta.
  set (w := mkWorld args0 e0 root0) in *.
  set (A := read_binary_file e0 (arg w 1)).
  set (n := Z.of_nat (List.length (read_binary_file e0 (arg w 2)))) in *.
  rewrite Hwrap.
  assert (Hb : 0 <= n < 2 ^ 31).
  { pose proof (wrap_range n) as Hr. rewrite Hwrap in Hr.
    unfold CInt.in_int in Hr. unfold n in *. lia. }
  assert (Hsq : CInt.size_mul (CInt.to_size_t n) (CInt.to_size_t n) = n * n).
  { rewrite to_size_t_small by lia. unfold CInt.size_mul.
    apply Z.mod_small. nia. }
  rewrite Hsq.
  destruct (Z.of_nat (List.length A) =? n * n); cbn [negb]; cbv iota beta;
    eexists _, _, _; repeat split; reflexivity.
Qed.

(** X7. File-input mode on a command line that is not rejected, with [n] the
    number of elements read for [b]: the root reads the file of [A] and then
    the file of [b], and nothing is generated on any process; the input is
    accepted exactly when [A] has [n * n] elements, and then the root holds
    the two vectors as read, [n], [write_output = true] and the fourth
    argument as output file name. *)
Theorem file_mode_reads args e p :
  let w := world_of args e p in
  usage_error w = false ->
  String.eqb (arg w 1) "-n" = false ->
  let A := read_binary_file e (arg w 1) in
  let b := read_binary_file e (arg w 2) in
  let n := Z.of_nat (List.length b) in
  CInt.wrap n = n ->
  (input_accepted args e = true <-> Z.of_nat (List.length A) = n * n)
  /\ root_locals args e = Locals.mk A b [] true (arg w 3) (Some n)
  /\ filter is_file_read (events w p 0)
     = [EvReadBinaryFile (arg w 1); EvReadBinaryFile (arg w 2)]
  /\ forall rank, Forall (fun ev => is_generation ev = false) (events w p rank).
Proof.
  intros w Hu Hn A b n Hwrap.
  destruct (read_input_files w Hu Hn Hwrap) as (r & s & t & Hread & Ht & Hs & Hr).
  change (ext w) with e in Hs, Hr. fold A b in Hs, Hr. fold n in Hs, Hr.
  destruct (root_locals_of_read args e p _ _ _ Hread) as (Hloc & Hacc).
  split.
  { rewrite Hacc, Hr.
    destruct (Z.eqb_spec (Z.of_nat (List.length A)) (n * n)) as [Heq|Hne].
    - split; intros _; [exact Heq | reflexivity].
    - split; intros H; [discriminate H | contradiction]. }
  split; [rewrite Hloc; exact Hs|].
  assert (Hroot : filter is_file_read (events w p 0)
                  = [EvReadBinaryFile (arg w 1); EvReadBinaryFile (arg w 2)]
                  /\ Forall (fun ev => is_generation ev = false) (events w p 0)).
  { unfold events, trace. rewrite run_main_split, Hread, Hr, Hs.
    destruct (Z.of_nat (List.length A) =? n * n).
    - destruct (Z_lt_le_dec 1 p) as [Hp|Hp];
        [rewrite continuation_root_parallel by lia
        |rewrite continuation_root_sequential by lia];
        cbv zeta;
        try destruct (not_square p (int_sqrt p));
        try destruct (vector_max_size <? CInt.to_size_t n);
        cbn [snd]; unfold root_tail;
        cbn [Locals.write_output Locals.set_x app];
        rewrite map_cons, map_app, Ht;
        (split; [reflexivity | cbn [map fst app]; listed]).
    - cbn [snd]. rewrite map_cons, Ht. split; [reflexivity | listed]. }
  split; [exact (proj1 Hroot)|].
  intros rank. destruct (Z.eq_dec rank 0) as [->|Hrk]; [exact (proj2 Hroot)|].
  unfold events, trace. rewrite run_nonroot by assumption. cbv zeta.
  destruct (p >? 1);
    [destruct (bcast_root w) as [v|];
     [destruct (not_square p (int_sqrt p))|]|];
    cbn [snd map fst]; listed.
Qed.

Lemma file_mode_reads_witness :
  root_locals Sample.from_files Sample.ext0
  = Locals.mk [4; 1; 1; 4]%float [1; 2]%float [] true "x.bin" (Some 2).
Proof.
  refine (proj1 (proj2 (file_mode_reads Sample.from_files Sample.ext0 4 _ _ _))).
  - reflexivity.
  - reflexivity.
  - reflexivity.
Defined.

(** ** Start and end of a process *)

(** X8. Every process starts with [MPI_Init].  A process that returns from
    [main] returns 0 and [MPI_Finalize] is the last thing it did; a process
    that stops in any other way (usage exit, exception, or waiting in the
    broadcast) never calls [MPI_Finalize]. *)
Theorem finalize_iff_return w p rank :
  (exists l, events w p rank = EvMPI_Init :: l)
  /\ (forall r, outcome w p rank = inr r ->
                r = 0 /\ exists l, events w p rank = l ++ [EvMPI_Finalize])
  /\ (forall st, outcome w p rank = inl st ->
                 ~ In EvMPI_Finalize (events w p rank)).
Proof.
  destruct (Z.eq_dec rank 0) as [->|Hr].
  - split; [|split].
    + unfold events, trace. rewrite run_main_split.
      destruct (read_input w 0 Locals.init) as [[[st|[]] s1] t1].
      * eexists. reflexivity.
      * destruct (continuation w p 0 s1) as [[r s2] t2]. eexists. reflexivity.
    + intros r Hout.
      destruct (root_success_shape w p r Hout)
        as (A1 & b1 & wo & name & v & t1 & xs' & _ & _ & _ & Hr0 & _ & _ & _ & Hev).
      split; [exact Hr0|]. rewrite Hev. eexists.
      rewrite !app_comm_cons, !app_assoc. reflexivity.
    + intros st Hout. unfold outcome, events, trace in *.
      root_cases w p; rewrite Hrun in *; cbn [snd fst] in *.
      * intros H. rewrite map_cons in H. destruct H as [H|H]; [discriminate H|].
        apply (in_input_events _ _ Hin) in H. discriminate H.
      * destruct (Z_lt_le_dec 1 p) as [Hp|Hp];
          [rewrite continuation_root_parallel in * by lia
          |rewrite continuation_root_sequential in * by lia];
          cbv zeta in *;
          try destruct (not_square p (int_sqrt p));
          try destruct (vector_max_size <? CInt.to_size_t v);
          cbn [snd fst] in *; try discriminate Hout;
          intros H; rewrite map_cons, map_app in H;
          (destruct H as [H|H]; [discriminate H|]);
          apply in_app_or in H; destruct H as [H|H];
          try (apply (in_input_events _ _ Hin) in H; discriminate H);
          cbn [map fst] in H; in_cases H.
  - unfold outcome, events, trace. rewrite run_nonroot by assumption. cbv zeta.
    destruct (p >? 1);
      [destruct (bcast_root w) as [v|];
       [destruct (not_square p (int_sqrt p))|]|];
      cbn [snd fst map];
      (split; [eexists; reflexivity|]);
      (split; [intros r H | intros st H]);
      try discriminate H.
    + intros H'. in_cases H'.
    + injection H as <-. split; [reflexivity|].
      exists [EvMPI_Init; EvBcast 0; EvSquareCheck p (int_sqrt p);
              EvCartCreate (grid_of p);
              EvSubscript BufA 0 0; EvSubscript BufB 0 0; EvSubscript BufX 0 0;
              EvMpiJacobi v [] [] [] (grid_of p)].
      reflexivity.
    + intros H'. in_cases H'.
    + intros H'. in_cases H'.
Qed.

Lemma finalize_iff_return_witness :
  ~ In EvMPI_Finalize (events (world_of Sample.mismatched Sample.ext0 1) 1 0).
Proof.
  refine (proj2 (proj2 (finalize_iff_return
                          (world_of Sample.mismatched Sample.ext0 1) 1 0))
                (Thrown msg_dimensions) _).
  reflexivity.
Defined.

(** ** The processes of a run, compared *)

(** X9. The whole run of a process other than the root is determined by the
    process count and by the value the broadcast delivers: two such
    processes that agree on these have the same outcome, local variables and
    trace, whatever their ranks, command lines, files and solvers. *)
Theorem nonroot_run_determined w1 w2 p r1 r2 :
  r1 <> 0 -> r2 <> 0 ->
  bcast_root w1 = bcast_root w2 ->
  run_main w1 p r1 = run_main w2 p r2.
Proof.
  intros H1 H2 Hb. rewrite (run_nonroot w1 p r1 H1), (run_nonroot w2 p r2 H2).
  cbv zeta. rewrite Hb. reflexivity.
Qed.

Lemma nonroot_run_determined_witness :
  run_main (world_of Sample.random2 Sample.ext0 4) 4 1
  = run_main (world_of Sample.from_files (Sample.externals MAX_ITERS_REACHED) 4) 4 3.
Proof.
  refine (nonroot_run_determined _ _ 4 1 3 _ _ _).
  - discriminate.
  - discriminate.
  - reflexivity.
Defined.



(** ** The test on the process count *)

(** X11. For an [int p >= 0] the test of line 164 lets the driver through
    exactly when [p] is a perfect square. *)
Theorem square_test_exact p :
  0 <= p < 2 ^ 31 ->
  not_square p (int_sqrt p) = false <-> exists k, p = k * k.
Proof.
  intros Hp. rewrite not_square_spec by exact Hp.
  rewrite negb_false_iff, Z.eqb_eq.
  symmetry. apply perfect_square_iff. lia.
Qed.

Lemma square_test_exact_witness :
  not_square 9 (int_sqrt 9) = false <-> exists k, 9 = k * k.
Proof.
  apply (square_test_exact 9). lia.
Defined.

(** ** Empty input files *)

(** X12. File-input mode with two empty files is not rejected: [n] is 0 and
    [A] has [0 * 0] elements, so the root goes on, forms the solver's
    arguments by subscripting element 0 of three empty vectors, calls the
    solver with size 0 and, when it returns, writes an empty output file. *)
Theorem empty_files_are_accepted args e p :
  let w := world_of args e p in
  usage_error w = false ->
  String.eqb (arg w 1) "-n" = false ->
  read_binary_file e (arg w 1) = [] ->
  read_binary_file e (arg w 2) = [] ->
  p <= 1 \/ not_square p (int_sqrt p) = false ->
  outcome w p 0 = inr 0
  /\ filter out_of_range (events w p 0)
     = [EvSubscript BufA 0 0; EvSubscript BufB 0 0; EvSubscript BufX 0 0]
  /\ filter is_solver_call (events w p 0)
     = [if p >? 1 then EvMpiJacobi 0 [] [] [] (grid_of p) else EvJacobi 0 [] [] []]
  /\ filter is_file_write (events w p 0) = [EvWriteBinaryFile (arg w 3) []].
Proof.
  intros w Hu Hn HA Hb Hp.
  assert (Hwrap : CInt.wrap (Z.of_nat (List.length (read_binary_file (ext w) (arg w 2))))
                  = Z.of_nat (List.length (read_binary_file (ext w) (arg w 2)))).
  { change (ext w) with e. rewrite Hb. reflexivity. }
  destruct (read_input_files w Hu Hn Hwrap) as (r & s & t & Hread & Ht & Hs & Hr).
  change (ext w) with e in Hs, Hr. rewrite HA, Hb in Hs, Hr.
  cbn [List.length Z.of_nat Z.mul Z.eqb] in Hs, Hr. subst r s.
  unfold outcome, events, trace. rewrite run_main_split, Hread.
  destruct (Z_lt_le_dec 1 p) as [Hgt|Hle].
  - destruct Hp as [Hp|Hp]; [lia|].
    rewrite continuation_root_parallel by lia. cbv zeta.
    rewrite Hp, (proj2 (Z.gtb_lt p 1) Hgt).
    change (vector_max_size <? CInt.to_size_t 0) with false.
    change (repeat 0%float (Z.to_nat (CInt.to_size_t 0))) with (@nil float).
    cbv iota. rewrite store_nil. unfold root_tail.
    cbn [fst snd Locals.write_output Locals.outfile_name Locals.x Locals.set_x app].
    rewrite map_cons, map_app, Ht. repeat split; reflexivity.
  - rewrite continuation_root_sequential by lia. cbv zeta.
    assert (Hgt : (p >? 1) = false) by (rewrite Z.gtb_ltb; apply Z.ltb_ge; lia).
    rewrite Hgt.
    change (vector_max_size <? CInt.to_size_t 0) with false.
    change (repeat 0%float (Z.to_nat (CInt.to_size_t 0))) with (@nil float).
    cbv iota. rewrite store_nil. unfold root_tail.
    cbn [fst snd Locals.write_output Locals.outfile_name Locals.x Locals.set_x app].
    rewrite map_cons, map_app, Ht. repeat split; reflexivity.
Qed.

Lemma empty_files_are_accepted_witness :
  filter is_file_write (events (world_of Sample.empty_files Sample.ext0 1) 1 0)
  = [EvWriteBinaryFile "x.bin" []].
Proof.
  refine (proj2 (proj2 (proj2
            (empty_files_are_accepted Sample.empty_files Sample.ext0 1 _ _ _ _ _)))).
  - reflexivity.
  - reflexivity.
  - reflexivity.
  - reflexivity.
  - left. lia.
Defined.

(** ** What the timer covers *)

Lemma input_not_clock ev : is_input_event ev = true -> is_clock ev = false.
Proof.
  destruct ev; try discriminate; reflexivity.
Qed.

(** X13. The timer of the root leaves out argument handling and input, as
    the comment at lines 148-149 says: everything the root does before it
    first reads the clock is [MPI_Init], printing the usage, generating or
    reading the input, and nothing of that kind happens afterwards; when the
    root returns it has read the clock exactly twice, and the call of the
    solver lies between the two readings. *)
Theorem timer_leaves_out_input w p :
  let t := trace w p 0 in
  Forall (fun en => fst en = EvMPI_Init \/ is_input_event (fst en) = true)
         (before_first is_clock t)
  /\ Forall (fun en => is_input_event (fst en) = false) (after_first is_clock t)
  /\ (forall r, outcome w p 0 = inr r ->
                filter is_clock (events w p 0) = [EvClock; EvClock]
                /\ existsb is_solver_call
                     (map fst (before_first is_clock (after_first is_clock t)))
                   = true).
Proof.
  unfold events, trace, outcome.
  assert (Hsplit : forall t1 t2,
             Forall (fun en => is_input_event (fst en) = true
                               /\ Locals.x (snd en) = []) t1 ->
             before_first is_clock ((EvMPI_Init, Locals.init) :: t1 ++ t2)
             = (EvMPI_Init, Locals.init) :: t1 ++ before_first is_clock t2
             /\ after_first is_clock ((EvMPI_Init, Locals.init) :: t1 ++ t2)
                = after_first is_clock t2).
  { intros t1 t2 Hin.
    pose proof (input_entries_not is_clock t1 input_not_clock Hin) as Hnc.
    cbn [before_first after_first fst is_clock].
    rewrite before_first_app, after_first_app by exact Hnc. split; reflexivity. }
  assert (Hpre : forall t1,
             Forall (fun en => is_input_event (fst en) = true
                               /\ Locals.x (snd en) = []) t1 ->
             Forall (fun en => fst en = EvMPI_Init \/ is_input_event (fst en) = true)
                    ((EvMPI_Init, Locals.init) :: t1)).
  { intros t1 Hin. apply Forall_cons; [left; reflexivity|].
    eapply Forall_impl; [|exact Hin]. intros en [H _]. right. exact H. }
  root_cases w p; rewrite Hrun; cbn [snd fst].
  - destruct (Hsplit t [] Hin) as (Hb & Ha). rewrite app_nil_r in Hb, Ha.
    rewrite Hb, Ha. cbn [before_first]. rewrite app_nil_r.
    split; [exact (Hpre t Hin)|]. split; [apply Forall_nil|].
    intros r H. discriminate H.
  - destruct (Z_lt_le_dec 1 p) as [Hp|Hp];
      [rewrite continuation_root_parallel by lia
      |rewrite continuation_root_sequential by lia];
      cbv zeta;
      try destruct (not_square p (int_sqrt p));
      try destruct (vector_max_size <? CInt.to_size_t v);
      cbn [snd fst];
      match goal with
      | |- context [(EvMPI_Init, Locals.init) :: t ++ ?t2] =>
          destruct (Hsplit t t2 Hin) as (Hb & Ha); rewrite Hb, Ha
      end;
      unfold root_tail;
      cbn [before_first after_first fst is_clock app];
      rewrite app_nil_r;
      (split; [exact (Hpre t Hin)|]);
      (split; [try destruct wo; cbn [Locals.write_output Locals.set_x app]; listed|]);
      intros r H; try discriminate H;
      (split; [|destruct wo; reflexivity]);
      rewrite map_cons; cbn [fst filter is_clock];
      rewrite map_app, filter_app;
      rewrite (filter_none is_clock (map fst t))
        by (apply input_events_forall; [exact input_not_clock | exact Hin]);
      destruct wo; reflexivity.
Qed.

Lemma timer_leaves_out_input_witness :
  filter is_clock (events (world_of Sample.from_files Sample.ext0 4) 4 0)
  = [EvClock; EvClock].
Proof.
  refine (proj1 (proj2 (proj2 (timer_leaves_out_input
                                 (world_of Sample.from_files Sample.ext0 4) 4))
                       0 _)).
  reflexivity.
Defined.

(** ** Failures come before any solving *)

(** X14. When the root leaves during argument handling (usage exit or
    dimension error) in a run with several processes, every other process
    initialises MPI, enters the broadcast of [n] and gets no further: the
    root never enters that broadcast. *)
Theorem others_wait_for_root args e p rank :
  input_accepted args e = false ->
  1 < p ->
  rank <> 0 ->
  let w := world_of args e p in
  outcome w p rank = inl Hung
  /\ events w p rank = [EvMPI_Init; EvBcast 0]
  /\ ~ In (EvBcast 0) (events w p 0).
Proof.
  intros Hacc Hp Hr w. unfold outcome, events, trace.
  unfold w. rewrite nonroot_without_root by assumption.
  rewrite (proj2 (Z.gtb_lt p 1) Hp). cbn [fst snd map].
  split; [reflexivity|]. split; [reflexivity|].
  pose proof (root_input_spec args e) as H.
  unfold input_accepted in Hacc.
  destruct (root_input args e) as [[[st|[]] s] t] eqn:Hin; [|discriminate Hacc].
  rewrite (root_rejected args e p st s t Hin). cbn [snd map fst].
  destruct H as (Hev & _).
  intros [H|H]; [discriminate H|].
  apply (in_input_events _ _ Hev) in H. discriminate H.
Qed.

Lemma others_wait_for_root_witness :
  outcome (world_of Sample.mismatched Sample.ext0 4) 4 2 = inl Hung
  /\ events (world_of Sample.mismatched Sample.ext0 4) 4 2 = [EvMPI_Init; EvBcast 0]
  /\ ~ In (EvBcast 0) (events (world_of Sample.mismatched Sample.ext0 4) 4 0).
Proof.
  refine (others_wait_for_root Sample.mismatched Sample.ext0 4 2 _ _ _).
  - reflexivity.
  - lia.
  - discriminate.
Defined.


